(** * Fractal narrative memory: segmentation, narrative graph, multi-scale retrieval

    A shallow embedding of [fractal_memory_advanced.py] and the properties of
    its segmenter, its SQLite-backed narrative graph and its retriever.

    Conventions of the embedding.
    - A Python [str] is a [string]; a character is read as the code point of
      the same number, so the model covers text over code points below 256.
    - A Python [int] is a [Z]; list positions and lengths are [nat].
    - An SQLite table is the list of its rows in insertion order; the
      statements of the program are functions on these lists.
    - The collaborators (named-entity recogniser, JSON codec, embedder,
      nearest-neighbour search, float arithmetic) are parameters. *)

From stdpp Require Import gmap strings list pretty.
From Stdlib Require Import Ascii ZArith QArith Lia.

Open Scope string_scope.
Open Scope Z_scope.

(** ** Python values and exceptions *)

Module Py.

Inductive exn :=
| KeyError
| ValueError
| AttributeError
| JSONDecodeError
| OperationalError.

(** The outcome of a call that may raise. *)
Inductive res (A : Type) :=
| Ok (a : A)
| Raise (e : exn).
Arguments Ok {A} a.
Arguments Raise {A} e.

Definition bind {A B} (m : res A) (k : A -> res B) : res B :=
  match m with
  | Ok a => k a
  | Raise e => Raise e
  end.

(** [l[a:b]] for any integers [a] and [b]. *)
Definition clamp (len i : Z) : Z :=
  let j := if i <? 0 then i + len else i in
  Z.max 0 (Z.min len j).

Definition slice {A} (l : list A) (a b : Z) : list A :=
  let len := Z.of_nat (List.length l) in
  let lo := clamp len a in
  let hi := clamp len b in
  firstn (Z.to_nat (hi - lo)) (skipn (Z.to_nat lo) l).

Definition chars (s : string) : list ascii := String.list_ascii_of_string s.
Definition str (l : list ascii) : string := String.string_of_list_ascii l.

Definition len (s : string) : Z := Z.of_nat (String.length s).

(** [s[a:b]], [s[:b]] and [s[a:]]. *)
Definition str_slice (s : string) (a b : Z) : string := str (slice (chars s) a b).
Definition str_upto (s : string) (b : Z) : string := str_slice s 0 b.
Definition str_from (s : string) (a : Z) : string := str_slice s a (len s).

(** [range(0, n, step)]. *)
Definition range_step (n step : Z) : res (list Z) :=
  if step =? 0 then Raise ValueError
  else if step <? 0 then Ok []
  else Ok (List.map (fun i => Z.of_nat i * step)
                    (seq 0 (Z.to_nat ((n + step - 1) / step)))).

(** [sorted(set(l))] on integers: ascending, without repetition. *)
Fixpoint insert_set (x : Z) (l : list Z) : list Z :=
  match l with
  | [] => [x]
  | y :: l' =>
      if x <? y then x :: l
      else if x =? y then l
      else y :: insert_set x l'
  end.

Definition sorted_set (l : list Z) : list Z := List.fold_right insert_set [] l.

End Py.

#[global] Instance res_bind : MBind Py.res := fun A B k m => Py.bind m k.
#[global] Instance res_ret : MRet Py.res := fun A a => Py.Ok a.

(** ** Characters, [str] methods and the regular expressions of the program *)

Module Text.

Definition code (c : ascii) : nat := Ascii.nat_of_ascii c.

Definition between (lo hi : nat) (c : ascii) : bool :=
  (Nat.leb lo (code c) && Nat.leb (code c) hi)%bool.

Definition nl : ascii := "010"%char.
Definition dquote : ascii := "034"%char.
Definition squote : ascii := "039"%char.

(** [\d] *)
Definition is_digit (c : ascii) : bool := between 48 57 c.

(** [\s] and [str.isspace] *)
Definition is_space (c : ascii) : bool :=
  (between 9 13 c || between 28 32 c
   || Nat.eqb (code c) 133 || Nat.eqb (code c) 160)%bool.

(** [\w]: alphanumeric or underscore *)
Definition is_word (c : ascii) : bool :=
  (between 48 57 c || between 65 90 c || between 97 122 c
   || Nat.eqb (code c) 95
   || Nat.eqb (code c) 170 || Nat.eqb (code c) 178 || Nat.eqb (code c) 179
   || Nat.eqb (code c) 181 || between 185 186 c || between 188 190 c
   || between 192 214 c || between 216 246 c || between 248 255 c)%bool.

(** [str.lower] on one character *)
Definition lower_char (c : ascii) : ascii :=
  if (between 65 90 c
      || (between 192 222 c && negb (Nat.eqb (code c) 215)))%bool
  then Ascii.ascii_of_nat (code c + 32)
  else c.

Fixpoint lower (s : string) : string :=
  match s with
  | EmptyString => EmptyString
  | String c s' => String (lower_char c) (lower s')
  end.

(** [s.replace(a, b)] for single characters [a] and [b] *)
Fixpoint replace_char (a b : ascii) (s : string) : string :=
  match s with
  | EmptyString => EmptyString
  | String c s' => String (if Ascii.eqb c a then b else c) (replace_char a b s')
  end.

(** [s.split()]: the maximal runs of non-space characters *)
Fixpoint split_go (cur : list ascii) (l : list ascii) : list string :=
  match l with
  | [] => match cur with [] => [] | _ => [Py.str (rev cur)] end
  | c :: l' =>
      if is_space c
      then match cur with
           | [] => split_go [] l'
           | _ => Py.str (rev cur) :: split_go [] l'
           end
      else split_go (c :: cur) l'
  end.

Definition split (s : string) : list string := split_go [] (Py.chars s).

(** [' '.join(ws)] *)
Definition join (ws : list string) : string := String.concat " " ws.

(** *** Regular expressions

    The patterns of the program are sequences of the items below. *)

Inductive item :=
| Chr (cls : ascii -> bool)            (* one character of a class *)
| Rep (cls : ascii -> bool) (lo : nat) (* [cls{lo,}], greedy *)
| WordB                                (* [\b] *)
| AltI (ws : list string).             (* [(w1|w2|...)] under [re.I] *)

Definition Lit (c : ascii) : item := Chr (Ascii.eqb c).

Definition lits (s : string) : list item := List.map Lit (Py.chars s).

Fixpoint span (cls : ascii -> bool) (l : list ascii) : nat :=
  match l with
  | c :: l' => if cls c then S (span cls l') else O
  | [] => O
  end.

(** The character before the position reached after [k] characters of [l]. *)
Definition before (prev : option ascii) (l : list ascii) (k : nat) : option ascii :=
  match k with
  | O => prev
  | S k' => nth_error l k'
  end.

Definition word_opt (o : option ascii) : bool :=
  match o with
  | Some c => is_word c
  | None => false
  end.

(** Does [w] (lower case) start [l], ignoring case? *)
Fixpoint prefix_ci (w : list ascii) (l : list ascii) : bool :=
  match w, l with
  | [], _ => true
  | _ :: _, [] => false
  | a :: w', c :: l' => (Ascii.eqb (lower_char c) a && prefix_ci w' l')%bool
  end.

(** [match_here p prev l]: the backtracking match of [p] at the head of
    [l], where [prev] is the character before it; the number of characters
    consumed by the first successful way of matching. *)
Fixpoint match_here (p : list item) (prev : option ascii) (l : list ascii)
  : option nat :=
  match p with
  | [] => Some O
  | Chr cls :: r =>
      match l with
      | c :: l' =>
          if cls c then option_map S (match_here r (Some c) l') else None
      | [] => None
      end
  | Rep cls lo :: r =>
      let m := span cls l in
      if Nat.ltb m lo then None
      else
        (fix try (k : nat) : option nat :=
           match match_here r (before prev l k) (skipn k l) with
           | Some n => Some (k + n)%nat
           | None =>
               match k with
               | O => None
               | S k' => if Nat.leb lo k' then try k' else None
               end
           end) m
  | WordB :: r =>
      if xorb (word_opt prev) (word_opt (hd_error l))
      then match_here r prev l
      else None
  | AltI ws :: r =>
      (fix alts (ws : list string) : option nat :=
         match ws with
         | [] => None
         | w :: ws' =>
             let k := String.length w in
             let here :=
               if prefix_ci (Py.chars w) l
               then match_here r (before prev l k) (skipn k l)
               else None in
             match here with
             | Some n => Some (k + n)%nat
             | None => alts ws'
             end
         end) ws
  end.

(** The successive non-overlapping matches of [p], left to right, as
    (start, length) pairs.  [skip] counts the characters of the current
    match still to be passed.  Every pattern of the program consumes at
    least one character. *)
Fixpoint scan (p : list item) (prev : option ascii) (pos skip : nat)
         (l : list ascii) : list (nat * nat) :=
  match l with
  | [] => []
  | c :: l' =>
      match skip with
      | S k => scan p (Some c) (S pos) k l'
      | O =>
          match match_here p prev l with
          | Some n => (pos, n) :: scan p (Some c) (S pos) (Nat.pred n) l'
          | None => scan p (Some c) (S pos) O l'
          end
      end
  end.

(** [re.finditer(p, s)] / [re.findall(p, s)] *)
Definition finditer (p : list item) (s : string) : list (nat * nat) :=
  scan p None O O (Py.chars s).

(** [len(re.findall(p, s))] *)
Definition count_matches (p : list item) (s : string) : Z :=
  Z.of_nat (List.length (finditer p s)).

(** [re.search(p, s)] is not [None] *)
Definition search (p : list item) (s : string) : bool :=
  match finditer p s with
  | [] => false
  | _ :: _ => true
  end.

(** [\b(w1|w2|...)\b] with [re.I] *)
Definition words_re (ws : list string) : list item := [WordB; AltI ws; WordB].

End Text.


(** ** Data classes *)

(** An entity of a spaCy document: [ent.text], [ent.label_], [ent.start_char]. *)
Module Ent.
Record t := { text : string; label_ : string; start_char : Z }.
End Ent.

Module MicroSegment.
Record t := {
  id : string;
  chapter : string;
  sent_index : Z;
  beat_index : Z;
  text : string;
  start_char : Z;
  end_char : Z;
  embedding_id : option Z
}.
End MicroSegment.

Module MesoSegment.
Record t := {
  id : string;
  chapter : string;
  start_char : Z;
  end_char : Z;
  text : string;
  micro_ids : list string;
  scene_type : option string;
  embedding_id : option Z
}.
End MesoSegment.

Module MacroSegment.
Record t := {
  id : string;
  chapter_or_arc : string;
  start_char : Z;
  end_char : Z;
  text : string;
  meso_ids : list string;
  arc_type : option string;
  embedding_id : option Z
}.
End MacroSegment.

(** ** Meso/macro segmentation *)

Module MultiScaleSegmenter.

Record t := { meso_window : Z * Z; overlap : Z }.

(** [MultiScaleSegmenter()] *)
Definition default : t := {| meso_window := (200, 800); overlap := 50 |}.

Definition nn : string := String Text.nl (String Text.nl EmptyString).

(** The scene markers of [detect_scene_breaks], in the order of the source. *)
Definition patterns : list (list Text.item) :=
  [ Text.lits (nn ++ "***" ++ nn);
    Text.lits (nn ++ "---" ++ nn);
    (Text.lits nn ++ [Text.Rep Text.is_space 3] ++ Text.lits nn)%list;
    (Text.lits (nn ++ "Chapter ") ++ [Text.Rep Text.is_digit 1])%list;
    (Text.lits nn ++ [Text.Rep Text.is_digit 1] ++ Text.lits ("." ++ nn))%list ].

(** [["\'"]]: a double or a single quote *)
Definition quote_re : list Text.item :=
  [Text.Chr (fun c => (Ascii.eqb c Text.dquote || Ascii.eqb c Text.squote)%bool)].

Definition action_re : list Text.item :=
  Text.words_re ["ran"; "jumped"; "fought"; "grabbed"; "threw"; "moved"; "walked"].

(** [len(re.findall(..)) / max(len(text), 1)].  The quotient is kept exact;
    the double of the source compares with [0.05] the same way for every
    text shorter than 2^52 characters. *)
Definition dialogue_ratio (text : string) : Q :=
  Qmake (Text.count_matches quote_re text) (Z.to_pos (Z.max (Py.len text) 1)).

Definition action_words (text : string) : Z := Text.count_matches action_re text.

Definition Qgtb (a b : Q) : bool := negb (Qle_bool a b).

Definition classify_scene_type (text : string) : string :=
  if Qgtb (dialogue_ratio text) (5 # 100) then "dialogue"
  else if 5 <? action_words text then "action"
  else if Py.len text <? 500 then "transition"
  else "description".

Definition detect_arc_type (text : string) : string :=
  if Text.search (Text.words_re ["beginning"; "started"; "first"; "introduced"])
                 (Py.str_upto text 500)
  then "setup"
  else if Text.search (Text.words_re ["climax"; "peak"; "confrontation"; "battle"]) text
  then "climax"
  else if Text.search (Text.words_re ["ended"; "conclusion"; "finally"; "resolved"])
                      (Py.str_from text (-500))
  then "resolution"
  else "rising".

Definition create_macro_segment (text chapter : string)
           (meso_segments : list MesoSegment.t) : MacroSegment.t :=
  {| MacroSegment.id := "macro_" ++ chapter;
     MacroSegment.chapter_or_arc := chapter;
     MacroSegment.start_char := 0;
     MacroSegment.end_char := Py.len text;
     MacroSegment.text :=
       if 2000 <? Py.len text then Py.str_upto text 2000 ++ "..." else text;
     MacroSegment.meso_ids := List.map MesoSegment.id meso_segments;
     MacroSegment.arc_type := Some (detect_arc_type text);
     MacroSegment.embedding_id := None |}.

(** [[m.id for m in micro_segments
      if m.start_char >= start and m.end_char <= end]] *)
Definition micro_ids_in (micro_segments : list MicroSegment.t) (start end_ : Z)
  : list string :=
  List.map MicroSegment.id
    (List.filter
       (fun m => (start <=? MicroSegment.start_char m)
                 && (MicroSegment.end_char m <=? end_))%bool
       micro_segments).

Definition create_sliding_windows (self : t) (text chapter : string)
           (micro_segments : list MicroSegment.t) : Py.res (list MesoSegment.t) :=
  let words := Text.split text in
  let n := Z.of_nat (List.length words) in
  let window_size := snd (meso_window self) in
  let step := window_size - overlap self in
  starts ← Py.range_step n step;
  mret (List.flat_map
    (fun '(i, start_idx) =>
       let end_idx := Z.min (start_idx + window_size) n in
       let window_text := Text.join (Py.slice words start_idx end_idx) in
       let start_char :=
         if 0 <? start_idx then Py.len (Text.join (Py.slice words 0 start_idx))
         else 0 in
       let end_char := Py.len (Text.join (Py.slice words 0 end_idx)) in
       match micro_ids_in micro_segments start_char end_char with
       | [] => []
       | ids =>
           [ {| MesoSegment.id := "meso_" ++ chapter ++ "_w" ++ pretty i;
                MesoSegment.chapter := chapter;
                MesoSegment.start_char := start_char;
                MesoSegment.end_char := end_char;
                MesoSegment.text := window_text;
                MesoSegment.micro_ids := ids;
                MesoSegment.scene_type := Some (classify_scene_type window_text);
                MesoSegment.embedding_id := None |} ]
       end)
    (List.combine (seq 0 (List.length starts)) starts)).

(** The window of iteration [i] of the loop over [scene_breaks]. *)
Definition scene_window (text : string) (scene_breaks : list Z) (i : nat) : Z * Z :=
  (nth i scene_breaks 0,
   if Nat.ltb (i + 1) (List.length scene_breaks)
   then nth (i + 1) scene_breaks 0
   else Py.len text).

Definition natural_scenes (text chapter : string)
           (micro_segments : list MicroSegment.t) (scene_breaks : list Z)
  : list MesoSegment.t :=
  List.flat_map
    (fun i =>
       let '(start, end_) := scene_window text scene_breaks i in
       match micro_ids_in micro_segments start end_ with
       | [] => []
       | ids =>
           [ {| MesoSegment.id := "meso_" ++ chapter ++ "_" ++ pretty i;
                MesoSegment.chapter := chapter;
                MesoSegment.start_char := start;
                MesoSegment.end_char := end_;
                MesoSegment.text := Py.str_slice text start end_;
                MesoSegment.micro_ids := ids;
                MesoSegment.scene_type :=
                  Some (classify_scene_type (Py.str_slice text start end_));
                MesoSegment.embedding_id := None |} ]
       end)
    (seq 0 (List.length scene_breaks - 1)).

Section WithNER.

(** The spaCy pipeline: the entities of a text, in document order. *)
Variable nlp : string -> list Ent.t.

Definition is_location (e : Ent.t) : bool :=
  (String.eqb (Ent.label_ e) "LOC" || String.eqb (Ent.label_ e) "GPE")%bool.

(** The loop over [doc.ents], [last] being [last_location]. *)
Fixpoint location_breaks (last : option string) (ents : list Ent.t) : list Z :=
  match ents with
  | [] => []
  | e :: r =>
      if is_location e then
        match last with
        | Some l =>
            if (negb (String.eqb l EmptyString) && negb (String.eqb (Ent.text e) l))%bool
            then Ent.start_char e :: location_breaks (Some (Ent.text e)) r
            else location_breaks (Some (Ent.text e)) r
        | None => location_breaks (Some (Ent.text e)) r
        end
      else location_breaks last r
  end.

Definition detect_scene_breaks (text : string) : list Z :=
  let marks :=
    List.flat_map
      (fun p => List.map (fun m => Z.of_nat (fst m)) (Text.finditer p text))
      patterns in
  let doc := nlp (if 5000 <? Py.len text then Py.str_upto text 5000 else text) in
  Py.sorted_set ([0] ++ marks ++ location_breaks None doc)%list.

Definition create_meso_segments (self : t) (text chapter : string)
           (micro_segments : list MicroSegment.t) : Py.res (list MesoSegment.t) :=
  let scene_breaks := detect_scene_breaks text in
  if Nat.ltb 1 (List.length scene_breaks)
  then mret (natural_scenes text chapter micro_segments scene_breaks)
  else create_sliding_windows self text chapter micro_segments.

End WithNER.

End MultiScaleSegmenter.

(** ** Decoded JSON values *)

Module Json.

#[warnings="-register-all"] Inductive t :=
| Null
| Bool (b : bool)
| Int (n : Z)
| Float (x : Q)
| Str (s : string)
| Arr (l : list t)
| Obj (kv : list (string * t)).

(** Python truthiness of a decoded value. *)
Definition truthy (v : t) : bool :=
  match v with
  | Null => false
  | Bool b => b
  | Int n => negb (n =? 0)
  | Float x => negb (Qnum x =? 0)
  | Str s => negb (String.eqb s EmptyString)
  | Arr l => match l with [] => false | _ => true end
  | Obj kv => match kv with [] => false | _ => true end
  end.

Fixpoint assoc (k : string) (kv : list (string * t)) : option t :=
  match kv with
  | [] => None
  | (k', v) :: r => if String.eqb k k' then Some v else assoc k r
  end.

(** [v.get(k)]: only a dict has the method. *)
Definition get (v : t) (k : string) : Py.res (option t) :=
  match v with
  | Obj kv => Py.Ok (assoc k kv)
  | _ => Py.Raise Py.AttributeError
  end.

(** [x == s] for the result [x] of a [get] and a string literal [s]. *)
Definition eq_str (x : option t) (s : string) : bool :=
  match x with
  | Some (Str s') => String.eqb s' s
  | _ => false
  end.

End Json.

Module GraphNode.
Record t := {
  node_id : string;
  node_type : string;
  canonical_name : string;
  attributes : Json.t;
  frequency : Z;
  centrality : option Z
}.
End GraphNode.

(** ** The narrative graph in SQLite *)

(** Rows of the three tables.  The REAL columns [weight] and [centrality] only
    ever hold counts and are integers here; TEXT columns that may be NULL are
    options. *)
Module NodeRow.
Record t := {
  node_id : string;
  node_type : string;
  canonical_name : string;
  attributes : option string;
  frequency : Z;
  centrality : option Z
}.
End NodeRow.

Module EdgeRow.
Record t := {
  edge_id : string;
  from_node : string;
  to_node : string;
  edge_type : string;
  weight : Z;
  evidence : option string
}.
End EdgeRow.

Module LinkRow.
Record t := {
  segment_id : string;
  node_id : string;
  segment_scale : string;
  confidence : Z
}.
End LinkRow.

Module NarrativeGraphManager.

(** The database behind [self.conn]. *)
Record db := {
  nodes : list NodeRow.t;
  edges : list EdgeRow.t;
  segment_nodes : list LinkRow.t
}.

(** The database after [init_schema] on a new file. *)
Definition empty : db := {| nodes := []; edges := []; segment_nodes := [] |}.

Definition load_character_aliases : gmap string string :=
  <["tom" := "Thomas"]>
    (<["tommy" := "Thomas"]>
       (<["robert" := "Robert"]>
          (<["bob" := "Robert"]>
             (<["miranda" := "Miranda"]> ∅)))).

Definition canonicalize (character_aliases : gmap string string)
           (name node_type : string) : string :=
  if String.eqb node_type "character" then
    let lower_name := Text.lower name in
    default name (character_aliases !! lower_name)
  else name.

(** [f"{node_type}_{canonical.lower().replace(' ', '_')}"] *)
Definition make_node_id (node_type canonical : string) : string :=
  node_type ++ "_" ++ Text.replace_char " " "_" (Text.lower canonical).

(** The motif lexicon, in the order of the dict of the source. *)
Definition motif_patterns : list (string * list string) :=
  [ ("frost", ["frost"; "frozen"; "ice"; "icy"; "cold"]);
    ("purple", ["purple"; "violet"; "lavender"; "mauve"]);
    ("water", ["water"; "rain"; "river"; "stream"; "ocean"; "sea"]);
    ("darkness", ["dark"; "darkness"; "shadow"; "night"; "black"]) ].

(** The source text of a motif pattern, [\b(w1|w2|...)\b]. *)
Definition pattern_source (ws : list string) : string :=
  "\b(" ++ String.concat "|" ws ++ ")\b".

(** [f"{a}_{b}_cooccur"] *)
Definition make_edge_id (a b : string) : string := a ++ "_" ++ b ++ "_cooccur".

(** The pairs [(l[i], l[j])] for [i < j], in the order of the nested loops. *)
Fixpoint pairs {A} (l : list A) : list (A * A) :=
  match l with
  | [] => []
  | x :: r => (List.map (fun y => (x, y)) r ++ pairs r)%list
  end.

(** [INSERT INTO nodes ... VALUES (?, ?, ?, ?, 1)
    ON CONFLICT(node_id) DO UPDATE SET frequency = frequency + 1] *)
Definition bump_frequency (nid : string) (r : NodeRow.t) : NodeRow.t :=
  if String.eqb (NodeRow.node_id r) nid
  then {| NodeRow.node_id := NodeRow.node_id r;
          NodeRow.node_type := NodeRow.node_type r;
          NodeRow.canonical_name := NodeRow.canonical_name r;
          NodeRow.attributes := NodeRow.attributes r;
          NodeRow.frequency := NodeRow.frequency r + 1;
          NodeRow.centrality := NodeRow.centrality r |}
  else r.

Definition has_node (nid : string) (rows : list NodeRow.t) : bool :=
  existsb (fun r => String.eqb (NodeRow.node_id r) nid) rows.

Definition upsert_node (row : NodeRow.t) (rows : list NodeRow.t) : list NodeRow.t :=
  if has_node (NodeRow.node_id row) rows
  then List.map (bump_frequency (NodeRow.node_id row)) rows
  else (rows ++ [row])%list.

(** [INSERT OR IGNORE INTO segment_nodes (segment_id, node_id, segment_scale)] *)
Definition has_link (sid nid : string) (rows : list LinkRow.t) : bool :=
  existsb (fun r => (String.eqb (LinkRow.segment_id r) sid
                     && String.eqb (LinkRow.node_id r) nid)%bool) rows.

Definition insert_link (sid nid scale : string) (rows : list LinkRow.t)
  : list LinkRow.t :=
  if has_link sid nid rows then rows
  else (rows ++ [ {| LinkRow.segment_id := sid; LinkRow.node_id := nid;
                     LinkRow.segment_scale := scale;
                     LinkRow.confidence := 1 |} ])%list.

(** [INSERT INTO edges ... VALUES (?, ?, ?, 'cooccurrence', 1.0, ?)
    ON CONFLICT(edge_id) DO UPDATE SET weight = weight + 1.0] *)
Definition bump_weight (eid : string) (r : EdgeRow.t) : EdgeRow.t :=
  if String.eqb (EdgeRow.edge_id r) eid
  then {| EdgeRow.edge_id := EdgeRow.edge_id r;
          EdgeRow.from_node := EdgeRow.from_node r;
          EdgeRow.to_node := EdgeRow.to_node r;
          EdgeRow.edge_type := EdgeRow.edge_type r;
          EdgeRow.weight := EdgeRow.weight r + 1;
          EdgeRow.evidence := EdgeRow.evidence r |}
  else r.

Definition has_edge (eid : string) (rows : list EdgeRow.t) : bool :=
  existsb (fun r => String.eqb (EdgeRow.edge_id r) eid) rows.

Definition upsert_edge (row : EdgeRow.t) (rows : list EdgeRow.t) : list EdgeRow.t :=
  if has_edge (EdgeRow.edge_id row) rows
  then List.map (bump_weight (EdgeRow.edge_id row)) rows
  else (rows ++ [row])%list.

(** [UPDATE nodes SET centrality = (SELECT COUNT( * ) FROM edges
    WHERE edges.from_node = nodes.node_id OR edges.to_node = nodes.node_id)] *)
Definition degree (es : list EdgeRow.t) (nid : string) : Z :=
  Z.of_nat (List.length
    (List.filter (fun e => (String.eqb (EdgeRow.from_node e) nid
                            || String.eqb (EdgeRow.to_node e) nid)%bool) es)).

Definition update_centrality (d : db) : db :=
  {| nodes :=
       List.map (fun r =>
         {| NodeRow.node_id := NodeRow.node_id r;
            NodeRow.node_type := NodeRow.node_type r;
            NodeRow.canonical_name := NodeRow.canonical_name r;
            NodeRow.attributes := NodeRow.attributes r;
            NodeRow.frequency := NodeRow.frequency r;
            NodeRow.centrality := Some (degree (edges d) (NodeRow.node_id r)) |})
         (nodes d);
     edges := edges d;
     segment_nodes := segment_nodes d |}.

(** A segment as the graph sees it: [segment.id] and [segment.text]. *)
Record seg := { id : string; text : string }.

Module Match.
Record entry := { node : string; type : string; scale : string }.
Record t := { segment_id : string; nodes : list entry }.
End Match.

Module Violation.
Record t := {
  type : string;
  character : string;
  segment : string;
  details : string
}.
End Violation.

(** [SELECT DISTINCT s.segment_id, s.segment_scale, n.canonical_name, n.node_type
    FROM segment_nodes s JOIN nodes n ON s.node_id = n.node_id
    WHERE n.canonical_name IN (...)] *)
Definition select_named (d : db) (node_names : list string)
  : list (string * string * string * string) :=
  remove_dups
    (List.flat_map
       (fun s =>
          List.flat_map
            (fun n =>
               if (String.eqb (LinkRow.node_id s) (NodeRow.node_id n)
                   && existsb (String.eqb (NodeRow.canonical_name n)) node_names)%bool
               then [ (LinkRow.segment_id s, LinkRow.segment_scale s,
                       NodeRow.canonical_name n, NodeRow.node_type n) ]
               else [])
            (nodes d))
       (segment_nodes d)).

(** [segments[key].append(v)] on a [defaultdict(list)], keys in first-seen order. *)
Fixpoint group_append {A} (key : string) (v : A) (g : list (string * list A))
  : list (string * list A) :=
  match g with
  | [] => [(key, [v])]
  | (k, vs) :: r =>
      if String.eqb k key then (k, (vs ++ [v])%list) :: r
      else (k, vs) :: group_append key v r
  end.

(** The default of SQLITE_MAX_VARIABLE_NUMBER, the largest number of [?]
    variables that SQLite accepts in one statement, since SQLite 3.32 (999
    before; a build may set another value). *)
Definition SQLITE_MAX_VARIABLE_NUMBER : Z := 32766.

(** [query_graph] on a connection whose SQLite accepts [variable_limit]
    variables.  The statement has one [?] per requested name;
    [cursor.execute] raises [sqlite3.OperationalError] (too many SQL
    variables) when there are more than the limit, before any row is read.
    The list [IN ()] of an empty request is accepted and selects nothing. *)
Definition query_graph (variable_limit : Z) (d : db) (node_names : list string)
           (edge_type : option string) : Py.res (list Match.t) :=
  if variable_limit <? Z.of_nat (List.length node_names)
  then Py.Raise Py.OperationalError
  else
    let results := select_named d node_names in
    let segments :=
      List.fold_left
        (fun g '(sid, sscale, cname, ntype) =>
           group_append sid
             {| Match.node := cname; Match.type := ntype; Match.scale := sscale |} g)
        results [] in
    Py.Ok
      (List.flat_map
         (fun '(seg_id, ns) =>
            let node_names_in_seg := List.map Match.node ns in
            if forallb (fun name => existsb (String.eqb name) node_names_in_seg)
                       node_names
            then [ {| Match.segment_id := seg_id; Match.nodes := ns |} ]
            else [])
         segments).

(** [ORDER BY s.segment_id]: byte order of the ids; rows with equal ids keep
    their order. *)
Fixpoint insert_row {A} (r : string * A) (l : list (string * A)) : list (string * A) :=
  match l with
  | [] => [r]
  | y :: l' =>
      if String.ltb (fst r) (fst y) then r :: l
      else y :: insert_row r l'
  end.

Definition order_by_segment {A} (l : list (string * A)) : list (string * A) :=
  List.fold_left (fun acc r => insert_row r acc) l [].

(** [SELECT s.segment_id, s.segment_scale, n.attributes
    FROM segment_nodes s JOIN nodes n ON s.node_id = n.node_id
    WHERE n.canonical_name = ? AND n.node_type = 'character'
    ORDER BY s.segment_id] *)
Definition select_character (d : db) (character : string)
  : list (string * (string * option string)) :=
  order_by_segment
    (List.flat_map
       (fun s =>
          List.flat_map
            (fun n =>
               if (String.eqb (LinkRow.node_id s) (NodeRow.node_id n)
                   && String.eqb (NodeRow.canonical_name n) character
                   && String.eqb (NodeRow.node_type n) "character")%bool
               then [ (LinkRow.segment_id s,
                       (LinkRow.segment_scale s, NodeRow.attributes n)) ]
               else [])
            (nodes d))
       (segment_nodes d)).

Section WithCollaborators.

Variable nlp : string -> list Ent.t.
(** [json.dumps] and [json.loads]; [None] is a decode failure. *)
Variable dumps : Json.t -> string.
Variable loads : string -> option Json.t.

Variable character_aliases : gmap string string.

Definition extract_entities (text segment_id scale : string) : list GraphNode.t :=
  let named :=
    List.flat_map
      (fun ent =>
         let l := Ent.label_ ent in
         if (String.eqb l "PERSON" || String.eqb l "LOC" || String.eqb l "ORG")%bool
         then
           let node_type :=
             if String.eqb l "PERSON" then "character" else "setting" in
           let canonical := canonicalize character_aliases (Ent.text ent) node_type in
           [ {| GraphNode.node_id := make_node_id node_type canonical;
                GraphNode.node_type := node_type;
                GraphNode.canonical_name := canonical;
                GraphNode.attributes :=
                  Json.Obj [("original_text", Json.Str (Ent.text ent));
                            ("label", Json.Str l)];
                GraphNode.frequency := 1;
                GraphNode.centrality := None |} ]
         else [])
      (nlp text) in
  let motifs :=
    List.flat_map
      (fun '(motif_name, ws) =>
         if Text.search (Text.words_re ws) text
         then [ {| GraphNode.node_id := "motif_" ++ motif_name;
                   GraphNode.node_type := "motif";
                   GraphNode.canonical_name := motif_name;
                   GraphNode.attributes :=
                     Json.Obj [("pattern", Json.Str (pattern_source ws))];
                   GraphNode.frequency := 1;
                   GraphNode.centrality := None |} ]
         else [])
      motif_patterns in
  (named ++ motifs)%list.

(** The row that the upsert of [entity] inserts. *)
Definition node_row (entity : GraphNode.t) : NodeRow.t :=
  {| NodeRow.node_id := GraphNode.node_id entity;
     NodeRow.node_type := GraphNode.node_type entity;
     NodeRow.canonical_name := GraphNode.canonical_name entity;
     NodeRow.attributes := Some (dumps (GraphNode.attributes entity));
     NodeRow.frequency := 1;
     NodeRow.centrality := None |}.

Definition edge_row (segment : seg) (scale : string) (p : string * string)
  : EdgeRow.t :=
  {| EdgeRow.edge_id := make_edge_id (fst p) (snd p);
     EdgeRow.from_node := fst p;
     EdgeRow.to_node := snd p;
     EdgeRow.edge_type := "cooccurrence";
     EdgeRow.weight := 1;
     EdgeRow.evidence :=
       Some (dumps (Json.Obj [("segment", Json.Str (id segment));
                              ("scale", Json.Str scale)])) |}.

(** The writes of [update_graph] for an extracted list, before the
    centralities are recomputed. *)
Definition apply_entities (d : db) (entities : list GraphNode.t)
           (segment : seg) (scale : string) : db :=
  let node_ids := List.map GraphNode.node_id entities in
  {| nodes :=
       List.fold_left (fun rows e => upsert_node (node_row e) rows)
                      entities (nodes d);
     edges :=
       List.fold_left (fun rows p => upsert_edge (edge_row segment scale p) rows)
                      (pairs node_ids) (edges d);
     segment_nodes :=
       List.fold_left
         (fun rows e => insert_link (id segment) (GraphNode.node_id e) scale rows)
         entities (segment_nodes d) |}.

Definition update_graph (d : db) (segment : seg) (scale : string) : db :=
  let entities := extract_entities (text segment) (id segment) scale in
  update_centrality (apply_entities d entities segment scale).

(** The loop of [find_continuity_violations] over the rows still to scan;
    [prev] is [prev_attributes] ([None] before the first row). *)
Fixpoint scan_rows (character : string) (prev : option Json.t)
         (rows : list (string * (string * option string)))
  : Py.res (list Violation.t) :=
  match rows with
  | [] => Py.Ok []
  | (segment_id, (_, attributes)) :: rest =>
      curr ←
        match attributes with
        | Some a =>
            if String.eqb a EmptyString then Py.Ok (Json.Obj [])
            else match loads a with
                 | Some v => Py.Ok v
                 | None => Py.Raise Py.JSONDecodeError
                 end
        | None => Py.Ok (Json.Obj [])
        end;
      flagged ←
        match prev with
        | Some p =>
            if Json.truthy p then
              ps ← Json.get p "status";
              if Json.eq_str ps "dead" then
                cs ← Json.get curr "status";
                Py.Ok (Json.eq_str cs "alive")
              else Py.Ok false
            else Py.Ok false
        | None => Py.Ok false
        end;
      more ← scan_rows character (Some curr) rest;
      Py.Ok (if flagged : bool
             then {| Violation.type := "resurrection";
                     Violation.character := character;
                     Violation.segment := segment_id;
                     Violation.details :=
                       "Character appears alive after being dead" |} :: more
             else more)
  end.

Definition find_continuity_violations (d : db) (character : string)
  : Py.res (list Violation.t) :=
  scan_rows character None (select_character d character).

End WithCollaborators.

End NarrativeGraphManager.

(** ** Multi-scale retrieval *)

(** Python floats, with the operations the retriever performs on them. *)
Class Number (F : Type) := {
  lit : Q -> F;           (* the float written as this decimal literal *)
  of_int : Z -> F;        (* an [int] operand promoted to float *)
  add : F -> F -> F;
  mul : F -> F -> F;
  div : F -> F -> F;
  ltb : F -> F -> bool;
  is_zero : F -> bool;    (* [x == 0] *)
  to_int : F -> Z         (* [int(x)] *)
}.

(** Exact rationals as numbers, for evaluating the model on small inputs. *)
#[global] Instance Q_number : Number Q := {
  lit q := q;
  of_int z := inject_Z z;
  add := Qplus;
  mul := Qmult;
  div := Qdiv;
  ltb a b := negb (Qle_bool b a);
  is_zero q := Qeq_bool q 0;
  to_int q := Z.quot (Qnum q) (Zpos (Qden q))
}.

(** A segment of any scale, as [index_segments] receives it. *)
Module AnySegment.

Inductive t :=
| Micro (m : MicroSegment.t)
| Meso (m : MesoSegment.t)
| Macro (m : MacroSegment.t).

Definition id (s : t) : string :=
  match s with
  | Micro m => MicroSegment.id m
  | Meso m => MesoSegment.id m
  | Macro m => MacroSegment.id m
  end.

Definition text (s : t) : string :=
  match s with
  | Micro m => MicroSegment.text m
  | Meso m => MesoSegment.text m
  | Macro m => MacroSegment.text m
  end.

Definition embedding_id (s : t) : option Z :=
  match s with
  | Micro m => MicroSegment.embedding_id m
  | Meso m => MesoSegment.embedding_id m
  | Macro m => MacroSegment.embedding_id m
  end.

(** [seg.embedding_id = e] *)
Definition set_embedding_id (s : t) (e : Z) : t :=
  match s with
  | Micro m =>
      Micro {| MicroSegment.id := MicroSegment.id m;
               MicroSegment.chapter := MicroSegment.chapter m;
               MicroSegment.sent_index := MicroSegment.sent_index m;
               MicroSegment.beat_index := MicroSegment.beat_index m;
               MicroSegment.text := MicroSegment.text m;
               MicroSegment.start_char := MicroSegment.start_char m;
               MicroSegment.end_char := MicroSegment.end_char m;
               MicroSegment.embedding_id := Some e |}
  | Meso m =>
      Meso {| MesoSegment.id := MesoSegment.id m;
              MesoSegment.chapter := MesoSegment.chapter m;
              MesoSegment.start_char := MesoSegment.start_char m;
              MesoSegment.end_char := MesoSegment.end_char m;
              MesoSegment.text := MesoSegment.text m;
              MesoSegment.micro_ids := MesoSegment.micro_ids m;
              MesoSegment.scene_type := MesoSegment.scene_type m;
              MesoSegment.embedding_id := Some e |}
  | Macro m =>
      Macro {| MacroSegment.id := MacroSegment.id m;
               MacroSegment.chapter_or_arc := MacroSegment.chapter_or_arc m;
               MacroSegment.start_char := MacroSegment.start_char m;
               MacroSegment.end_char := MacroSegment.end_char m;
               MacroSegment.text := MacroSegment.text m;
               MacroSegment.meso_ids := MacroSegment.meso_ids m;
               MacroSegment.arc_type := MacroSegment.arc_type m;
               MacroSegment.embedding_id := Some e |}
  end.

End AnySegment.

Module FractalRetriever.

Definition MICRO_INDEX_PATH : string := "micro_faiss.index".
Definition MESO_INDEX_PATH : string := "meso_faiss.index".
Definition MACRO_INDEX_PATH : string := "macro_faiss.index".
Definition META_PREFIX : string := "metadata".

Definition index_paths : gmap string string :=
  <["micro" := MICRO_INDEX_PATH]>
    (<["meso" := MESO_INDEX_PATH]>
       (<["macro" := MACRO_INDEX_PATH]> ∅)).

Section WithCollaborators.

(** Embedding vectors; a FAISS flat index is the list of its vectors, and
    [index.ntotal] its length. *)
Variable V : Type.
Context {F : Type} {num : Number F}.

(** [self.indices] and [self.metadata] *)
Record t := {
  indices : gmap string (list V);
  metadata : gmap string (list AnySegment.t)
}.

(** What persists outside the instance: the index files, the metadata
    files and the graph database. *)
Record world := {
  index_files : gmap string (list V);
  meta_files : gmap string (list AnySegment.t);
  graph : NarrativeGraphManager.db
}.

(** [FractalRetriever()] *)
Definition new : t := {| indices := ∅; metadata := ∅ |}.

Variable nlp : string -> list Ent.t.
Variable dumps : Json.t -> string.
(** [self.model.encode] followed by [faiss.normalize_L2], on one text. *)
Variable embed : string -> V.
(** [index.search(q, k)] as the pairs [zip(D[0], I[0])]. *)
Variable search : list V -> V -> Z -> list (F * Z).

Definition load_or_create_index (w : world) (scale : string) : Py.res (list V) :=
  match index_paths !! scale with
  | None => Py.Raise Py.KeyError
  | Some index_path =>
      match index_files w !! index_path with
      | Some ix => Py.Ok ix
      | None => Py.Ok []
      end
  end.

(** [seg.embedding_id = start_id + i] for the [i]th segment. *)
Fixpoint assign_ids (start_id : Z) (segments : list AnySegment.t)
  : list AnySegment.t :=
  match segments with
  | [] => []
  | s :: r => AnySegment.set_embedding_id s start_id :: assign_ids (start_id + 1) r
  end.

Definition graph_seg (s : AnySegment.t) : NarrativeGraphManager.seg :=
  {| NarrativeGraphManager.id := AnySegment.id s;
     NarrativeGraphManager.text := AnySegment.text s |}.

(** [index_segments]: the instance and the world after the call, and
    whether it raised. *)
Definition index_segments (r : t) (w : world)
           (segments : list AnySegment.t) (scale : string)
  : t * world * Py.res unit :=
  match
    (match indices r !! scale with
     | Some ix => Py.Ok ix
     | None => load_or_create_index w scale
     end)
  with
  | Py.Raise e => (r, w, Py.Raise e)
  | Py.Ok index0 =>
      let texts := List.map AnySegment.text segments in
      let embeddings := List.map embed texts in
      let start_id := Z.of_nat (List.length index0) in
      let index := (index0 ++ embeddings)%list in
      let segments' := assign_ids start_id segments in
      let meta := (default [] (metadata r !! scale) ++ segments')%list in
      let r' := {| indices := <[scale := index]> (indices r);
                   metadata := <[scale := meta]> (metadata r) |} in
      match index_paths !! scale with
      | None => (r', w, Py.Raise Py.KeyError)
      | Some index_path =>
          let g :=
            if String.eqb scale "meso"
            then List.fold_left
                   (fun d seg =>
                      NarrativeGraphManager.update_graph
                        nlp dumps NarrativeGraphManager.load_character_aliases
                        d (graph_seg seg) scale)
                   segments' (graph w)
            else graph w in
          (r',
           {| index_files := <[index_path := index]> (index_files w);
              meta_files :=
                <[META_PREFIX ++ "_" ++ scale ++ ".npy" := meta]> (meta_files w);
              graph := g |},
           Py.Ok tt)
      end
  end.

(** One entry of the list that [fractal_retrieve] returns. *)
Record result := {
  scale : string;
  score : F;
  segment : AnySegment.t;
  graph_boost : F;
  context_boost : F
}.

Definition line_fix : list (string * F) :=
  [("micro", lit (9 # 10)); ("meso", lit (1 # 10)); ("macro", lit 0)].
Definition scene_fix : list (string * F) :=
  [("micro", lit (2 # 10)); ("meso", lit (7 # 10)); ("macro", lit (1 # 10))].
Definition thematic : list (string * F) :=
  [("micro", lit (1 # 10)); ("meso", lit (3 # 10)); ("macro", lit (6 # 10))].
Definition default_weights : list (string * F) :=
  [("micro", lit 1); ("meso", lit (6 # 10)); ("macro", lit (3 # 10))].

(** The two [if] statements at the head of [fractal_retrieve]: a dict is
    the list of its items in insertion order, [None] is [None]. *)
Definition apply_policy (scale_weights : option (list (string * F)))
           (policy : option string) : option (list (string * F)) :=
  match policy with
  | Some p =>
      if String.eqb p EmptyString then scale_weights
      else if String.eqb p "line-fix" then Some line_fix
      else if String.eqb p "scene-fix" then Some scene_fix
      else if String.eqb p "thematic" then Some thematic
      else scale_weights
  | None => scale_weights
  end.

Definition effective_weights (scale_weights : option (list (string * F)))
           (policy : option string) : list (string * F) :=
  match apply_policy scale_weights policy with
  | Some (x :: l) => x :: l
  | _ => default_weights
  end.

(** [min(a, b)] *)
Definition fmin (a b : F) : F := if ltb b a then b else a.

(** [SELECT n.centrality FROM segment_nodes s JOIN nodes n
    ON s.node_id = n.node_id
    WHERE s.segment_id = ? AND n.canonical_name = ?], first row. *)
Definition select_centrality (d : NarrativeGraphManager.db)
           (segment_id canonical : string) : option (option Z) :=
  hd_error
    (List.flat_map
       (fun s =>
          List.flat_map
            (fun n =>
               if (String.eqb (LinkRow.node_id s) (NodeRow.node_id n)
                   && String.eqb (LinkRow.segment_id s) segment_id
                   && String.eqb (NodeRow.canonical_name n) canonical)%bool
               then [NodeRow.centrality n]
               else [])
            (NarrativeGraphManager.nodes d))
       (NarrativeGraphManager.segment_nodes d)).

Definition compute_graph_boost (w : world) (segment : AnySegment.t)
           (query : string) : F :=
  let query_entities :=
    List.map Ent.text
      (List.filter
         (fun ent => (String.eqb (Ent.label_ ent) "PERSON"
                      || String.eqb (Ent.label_ ent) "LOC")%bool)
         (nlp query)) in
  match query_entities with
  | [] => lit 0
  | _ =>
      List.fold_left
        (fun boost entity =>
           let canonical :=
             NarrativeGraphManager.canonicalize
               NarrativeGraphManager.load_character_aliases entity "character" in
           match select_centrality (graph w) (AnySegment.id segment) canonical with
           | Some (Some c) =>
               if c =? 0 then boost
               else add boost (fmin (div (of_int c) (lit 100)) (lit (5 # 10)))
           | _ => boost
           end)
        query_entities (lit 0)
  end.

(** The candidates of one scale. *)
Definition scale_results (r : t) (w : world) (query : string) (q_emb : V)
           (k : Z) (scale : string) (weight : F) : list result :=
  if is_zero weight then []
  else
    match indices r !! scale with
    | None => []
    | Some index =>
        let meta := default [] (metadata r !! scale) in
        let ntotal := Z.of_nat (List.length index) in
        if ntotal =? 0 then []
        else
          let search_k :=
            Z.min (to_int (mul (mul (of_int k) weight) (of_int 2))) ntotal in
          List.flat_map
            (fun '(sc, idx) =>
               if ((idx <? 0) || (Z.of_nat (List.length meta) <=? idx))%bool
               then []
               else
                 match nth_error meta (Z.to_nat idx) with
                 | None => []
                 | Some segment =>
                     let graph_boost := compute_graph_boost w segment query in
                     let context_boost := lit 0 in
                     let final_score :=
                       add (add (mul weight sc) (mul (lit (2 # 10)) graph_boost))
                           (mul (lit (1 # 10)) context_boost) in
                     [ {| scale := scale;
                          score := final_score;
                          segment := segment;
                          graph_boost := graph_boost;
                          context_boost := context_boost |} ]
                 end)
            (search index q_emb search_k)
    end.

(** [results.sort(key=lambda x: x['score'], reverse=True)]: descending,
    entries of equal score keep their order. *)
Fixpoint insert_desc (x : result) (l : list result) : list result :=
  match l with
  | [] => [x]
  | y :: l' =>
      if ltb (score y) (score x) then x :: l
      else y :: insert_desc x l'
  end.

Definition sort_desc (l : list result) : list result :=
  List.fold_left (fun acc x => insert_desc x acc) l [].

Definition fractal_retrieve (r : t) (w : world) (query : string) (k : Z)
           (scale_weights : option (list (string * F)))
           (policy : option string) : list result :=
  let weights := effective_weights scale_weights policy in
  let q_emb := embed query in
  let results :=
    List.flat_map
      (fun '(scale, weight) => scale_results r w query q_emb k scale weight)
      weights in
  Py.slice (sort_desc results) 0 k.

(** The instance and the world after a sequence of [index_segments] calls. *)
Definition run_index (r : t) (w : world)
           (calls : list (list AnySegment.t * string)) : t * world :=
  List.fold_left
    (fun st '(segments, scale) =>
       fst (index_segments (fst st) (snd st) segments scale))
    calls (r, w).

End WithCollaborators.

End FractalRetriever.

From Stdlib Require Import Sorting.Sorted.

(** ** Motif clustering *)

Module Motif.
Record t := {
  label : string;
  keywords : list string;
  size : Z;
  segment_indices : list Z
}.
End Motif.

Module MotifClusterer.

(** [set(lexicon) & keyword_set] is not empty. *)
Definition intersects (lexicon keywords : list string) : bool :=
  existsb (fun k => existsb (String.eqb k) keywords) lexicon.

Definition generate_motif_label (keywords : list string) : string :=
  if intersects ["frost"; "cold"; "ice"; "frozen"] keywords then "cold-presence"
  else if intersects ["purple"; "violet"; "stain"] keywords then "purple-motif"
  else if intersects ["water"; "rain"; "river"; "ocean"] keywords then "water-imagery"
  else if intersects ["dark"; "shadow"; "night"; "darkness"] keywords
  then "darkness-theme"
  else String.concat "-" (Py.slice keywords 0 3).

(** [clusters[label].append(i)] on a [defaultdict(list)], keys in first-seen
    order. *)
Fixpoint group_append (key v : Z) (g : list (Z * list Z)) : list (Z * list Z) :=
  match g with
  | [] => [(key, [v])]
  | (k, vs) :: r =>
      if k =? key then (k, (vs ++ [v])%list) :: r
      else (k, vs) :: group_append key v r
  end.

(** [enumerate(labels)] *)
Definition enumerate (labels : list Z) : list (Z * Z) :=
  List.combine (List.map Z.of_nat (seq 0 (List.length labels))) labels.

(** The first loop: the positions of each label that is not noise. *)
Definition group_labels (labels : list Z) : list (Z * list Z) :=
  List.fold_left
    (fun clusters '(i, label) =>
       if 0 <=? label then group_append label i clusters else clusters)
    (enumerate labels) [].

(** [[texts[i] for i in indices]], [None] when an index is out of range
    ([IndexError]); the indices are never negative. *)
Fixpoint texts_at (texts : list string) (indices : list Z) : option (list string) :=
  match indices with
  | [] => Some []
  | i :: r =>
      match nth_error texts (Z.to_nat i), texts_at texts r with
      | Some t, Some ts => Some (t :: ts)
      | _, _ => None
      end
  end.

Section WithCollaborators.

Variable V : Type.
(** [self.clusterer.fit_predict]: one label per embedding, -1 for noise. *)
Variable fit_predict : list V -> list Z.
(** The TF-IDF pass over the texts of a cluster: the terms of highest
    summed weight, best first, ten at most. *)
Variable top_keywords : list string -> list string.

(** The second loop, over [clusters.items()]; [None] is [IndexError]. *)
Fixpoint label_clusters (texts : list string) (clusters : list (Z * list Z))
  : option (list (Z * Motif.t)) :=
  match clusters with
  | [] => Some []
  | (cluster_id, indices) :: rest =>
      match texts_at texts indices with
      | None => None
      | Some cluster_texts =>
          match label_clusters texts rest with
          | None => None
          | Some motifs =>
              if (2 <=? List.length cluster_texts)%nat
              then
                let keywords := top_keywords cluster_texts in
                Some ((cluster_id,
                       {| Motif.label := generate_motif_label keywords;
                          Motif.keywords := keywords;
                          Motif.size := Z.of_nat (List.length indices);
                          Motif.segment_indices := Py.slice indices 0 10 |})
                        :: motifs)
              else Some motifs
          end
      end
  end.

Definition cluster_embeddings (embeddings : list V) (texts : list string)
  : option (list (Z * Motif.t)) :=
  label_clusters texts (group_labels (fit_predict embeddings)).

End WithCollaborators.

End MotifClusterer.

(** * The claims as the specification words them *)

Module AsSpecified.

Import MultiScaleSegmenter.

(** Scene type by the priority order of the specification: dialogue (quote
    density above 0.05), action (at least 5 action-verb hits), transition
    (shorter than 500 characters), description. *)
Definition classify_scene_type_spec (text : string) : string :=
  if Qgtb (dialogue_ratio text) (5 # 100) then "dialogue"
  else if 5 <=? action_words text then "action"
  else if Py.len text <? 500 then "transition"
  else "description".

End AsSpecified.

(** * Reading the tables *)

(** A table with a TEXT primary key and a counter column, and the statement
    [INSERT ... ON CONFLICT(key) DO UPDATE SET counter = counter + 1] on it;
    [upsert_node] and [upsert_edge] are its two instances. *)
Module Keyed.

Section Table.

Context {A : Type}.
Variable key : A -> string.
Variable counter : A -> Z.
Variable bump : A -> A.

Definition bump_if (k : string) (r : A) : A :=
  if String.eqb (key r) k then bump r else r.

Definition has (k : string) (rows : list A) : bool :=
  existsb (fun r => String.eqb (key r) k) rows.

Definition upsert (row : A) (rows : list A) : list A :=
  if has (key row) rows then List.map (bump_if (key row)) rows
  else (rows ++ [row])%list.

(** [SELECT counter FROM table WHERE key = ?], 0 when there is no row. *)
Definition count_of (rows : list A) (k : string) : Z :=
  match List.find (fun r => String.eqb (key r) k) rows with
  | Some r => counter r
  | None => 0
  end.

End Table.

End Keyed.

Module Observe.

Import NarrativeGraphManager.

(** [SELECT frequency FROM nodes WHERE node_id = ?], 0 when there is no row. *)
Definition frequency_of (rows : list NodeRow.t) (nid : string) : Z :=
  Keyed.count_of NodeRow.node_id NodeRow.frequency rows nid.

(** [SELECT weight FROM edges WHERE edge_id = ?], 0 when there is no row. *)
Definition weight_of (rows : list EdgeRow.t) (eid : string) : Z :=
  Keyed.count_of EdgeRow.edge_id EdgeRow.weight rows eid.

(** The row after [frequency = frequency + 1]. *)
Definition more_frequent (r : NodeRow.t) : NodeRow.t :=
  {| NodeRow.node_id := NodeRow.node_id r;
     NodeRow.node_type := NodeRow.node_type r;
     NodeRow.canonical_name := NodeRow.canonical_name r;
     NodeRow.attributes := NodeRow.attributes r;
     NodeRow.frequency := NodeRow.frequency r + 1;
     NodeRow.centrality := NodeRow.centrality r |}.

(** The row after [weight = weight + 1.0]. *)
Definition heavier (r : EdgeRow.t) : EdgeRow.t :=
  {| EdgeRow.edge_id := EdgeRow.edge_id r;
     EdgeRow.from_node := EdgeRow.from_node r;
     EdgeRow.to_node := EdgeRow.to_node r;
     EdgeRow.edge_type := EdgeRow.edge_type r;
     EdgeRow.weight := EdgeRow.weight r + 1;
     EdgeRow.evidence := EdgeRow.evidence r |}.

(** The co-occurrence edges between two nodes, in either direction. *)
Definition edges_between (rows : list EdgeRow.t) (a b : string) : list EdgeRow.t :=
  List.filter
    (fun e =>
       (String.eqb (EdgeRow.edge_type e) "cooccurrence"
        && ((String.eqb (EdgeRow.from_node e) a && String.eqb (EdgeRow.to_node e) b)
            || (String.eqb (EdgeRow.from_node e) b
                && String.eqb (EdgeRow.to_node e) a)))%bool)
    rows.

(** The pairs of positions [(i, j)] with [i < j < n]. *)
Definition position_pairs (n : nat) : list (nat * nat) :=
  List.filter (fun p => (fst p <? snd p)%nat) (list_prod (seq 0 n) (seq 0 n)).

(** The number of pairs of positions [i < j] of [ids] whose node ids, in
    this order, give the edge id [eid]. *)
Definition cooccurrences (ids : list string) (eid : string) : Z :=
  Z.of_nat (List.length
    (List.filter
       (fun p => String.eqb (make_edge_id (nth (fst p) ids EmptyString)
                                          (nth (snd p) ids EmptyString)) eid)
       (position_pairs (List.length ids)))).

(** Same id and same endpoints. *)
Definition same_edge (e e' : EdgeRow.t) : Prop :=
  EdgeRow.edge_id e = EdgeRow.edge_id e'
  /\ EdgeRow.from_node e = EdgeRow.from_node e'
  /\ EdgeRow.to_node e = EdgeRow.to_node e'.

(** The row joins the node id at a position of [ids] to the node id at a
    later position. *)
Definition joins_in_order (ids : list string) (e : EdgeRow.t) : Prop :=
  exists i j,
    (i < j < List.length ids)%nat
    /\ EdgeRow.from_node e = nth i ids EmptyString
    /\ EdgeRow.to_node e = nth j ids EmptyString.

Section WithCollaborators.

Variable nlp : string -> list Ent.t.
Variable dumps : Json.t -> string.
Variable character_aliases : gmap string string.

(** The node ids extracted from a segment, in extraction order. *)
Definition extracted_ids (segment : seg) (scale : string) : list string :=
  List.map GraphNode.node_id
    (extract_entities nlp character_aliases (text segment) (id segment) scale).

(** A sequence of [update_graph] calls. *)
Definition ingest (d : db) (calls : list (seg * string)) : db :=
  List.fold_left
    (fun d '(segment, scale) =>
       update_graph nlp dumps character_aliases d segment scale)
    calls d.

(** The number of [cooccurrences] over the lists extracted by the calls. *)
Definition cooccurrences_in (calls : list (seg * string)) (eid : string) : Z :=
  List.fold_right Z.add 0
    (List.map
       (fun '(segment, scale) => cooccurrences (extracted_ids segment scale) eid)
       calls).

(** The number of calls whose segment had both [a] and [b] extracted. *)
Definition extracted_together (calls : list (seg * string)) (a b : string) : Z :=
  Z.of_nat (List.length
    (List.filter
       (fun '(segment, scale) =>
          let ids := extracted_ids segment scale in
          (existsb (String.eqb a) ids && existsb (String.eqb b) ids)%bool)
       calls)).

End WithCollaborators.

End Observe.

(** * Reading the results of a retrieval *)

Module ObserveRetrieval.

Import FractalRetriever.

Section WithCollaborators.

Variable V : Type.
Context {F : Type} {num : Number F}.
Variable nlp : string -> list Ent.t.
Variable embed : string -> V.
Variable search : list V -> V -> Z -> list (F * Z).

(** The entry [x] is made from a hit of the search of its scale under
    the weight [weight]: the weight is not zero, the instance holds a
    non-empty index for the scale, the search for
    [min(int(k * weight * 2), ntotal)] neighbours of the query returned
    the score [sc] at a position [idx] of the metadata, which holds the
    segment of [x], and the score of [x] is
    [weight * sc + 0.2 * graph_boost + 0.1 * context_boost]. *)
Definition scored_with (r : t V) (w : world V) (query : string) (k : Z)
           (weight : F) (x : result) : Prop :=
  is_zero weight = false
  /\ exists index sc idx,
       indices V r !! scale x = Some index
       /\ index <> []
       /\ In (sc, idx)
             (search index (embed query)
                (Z.min (to_int (mul (mul (of_int k) weight) (of_int 2)))
                       (Z.of_nat (List.length index))))
       /\ 0 <= idx
       /\ nth_error (default [] (metadata V r !! scale x)) (Z.to_nat idx)
          = Some (segment x)
       /\ graph_boost x = compute_graph_boost V nlp w (segment x) query
       /\ context_boost x = lit 0
       /\ score x
          = add (add (mul weight sc) (mul (lit (2 # 10)) (graph_boost x)))
                (mul (lit (1 # 10)) (context_boost x)).

(** [x] is such an entry under the weight that [weights] gives to its
    scale. *)
Definition candidate (weights : list (string * F)) (r : t V) (w : world V)
           (query : string) (k : Z) (x : result) : Prop :=
  exists weight, In (scale x, weight) weights /\ scored_with r w query k weight x.

End WithCollaborators.

End ObserveRetrieval.

(** * Concrete inputs *)

Module Samples.

(** A recogniser that finds no entity. *)
Definition no_entities : string -> list Ent.t := fun _ => [].

Definition micro (i : string) (a b : Z) : MicroSegment.t :=
  {| MicroSegment.id := i;
     MicroSegment.chapter := "ch1";
     MicroSegment.sent_index := 0;
     MicroSegment.beat_index := 0;
     MicroSegment.text := EmptyString;
     MicroSegment.start_char := a;
     MicroSegment.end_char := b;
     MicroSegment.embedding_id := None |}.

(** Two sentences separated by an asterisk row. *)
Definition two_scenes : string :=
  "One." ++ MultiScaleSegmenter.nn ++ "***" ++ MultiScaleSegmenter.nn ++ "Two.".

Definition two_scenes_micro : list MicroSegment.t :=
  [micro "m0" 0 4; micro "m1" 11 15].

Definition five_hits : string := "ran ran ran ran ran".
Definition six_hits : string := "ran ran ran ran ran ran".
Definition quoted : string := "'a'".

(** *** Graph states *)

Definition node (nid ntype cname : string) (attrs : option string) (freq : Z)
  : NodeRow.t :=
  {| NodeRow.node_id := nid;
     NodeRow.node_type := ntype;
     NodeRow.canonical_name := cname;
     NodeRow.attributes := attrs;
     NodeRow.frequency := freq;
     NodeRow.centrality := None |}.

Definition link (sid nid : string) : LinkRow.t :=
  {| LinkRow.segment_id := sid;
     LinkRow.node_id := nid;
     LinkRow.segment_scale := "meso";
     LinkRow.confidence := 1 |}.

(** One scene that mentions Alice and the frost motif. *)
Definition alice_frost : NarrativeGraphManager.db :=
  {| NarrativeGraphManager.nodes :=
       [node "character_alice" "character" "Alice" None 1;
        node "motif_frost" "motif" "frost" None 1];
     NarrativeGraphManager.edges := [];
     NarrativeGraphManager.segment_nodes :=
       [link "meso_ch1_0" "character_alice"; link "meso_ch1_0" "motif_frost"] |}.

(** A request of 32767 names, none of them in [alice_frost]. *)
Definition many_unknown : list string := List.repeat "Nobody" (Z.to_nat 32767).

(** JSON texts of the two attribute blobs [{status: dead}] and
    [{status: alive}], and a decoder that knows them. *)
Definition q : string := String Text.dquote EmptyString.



(** *** Recognised entities *)

Definition person (name : string) (at_ : Z) : Ent.t :=
  {| Ent.text := name; Ent.label_ := "PERSON"; Ent.start_char := at_ |}.

(** A recogniser for three sentences. *)
Definition three_sentences (text : string) : list Ent.t :=
  if String.eqb text "Tom saw Tom." then [person "Tom" 0; person "Tom" 8]
  else if String.eqb text "Alice met Carol." then [person "Alice" 0; person "Carol" 10]
  else if String.eqb text "Carol met Alice." then [person "Carol" 0; person "Alice" 10]
  else [].

(** A recogniser for a sentence with three names, two of them long. *)
Definition long_names (text : string) : list Ent.t :=
  if String.eqb text "Ann saw Bob Motif Frost and Ann Character Bob in the frost."
  then [person "Ann" 0; person "Bob Motif Frost" 8; person "Ann Character Bob" 28]
  else [].

(** An encoder that writes every value as the empty object. *)
Definition dumps_empty : Json.t -> string := fun _ => "{}".

Definition scene (i text : string) : NarrativeGraphManager.seg :=
  {| NarrativeGraphManager.id := i; NarrativeGraphManager.text := text |}.

Definition tom_scene : NarrativeGraphManager.seg := scene "meso_ch1_0" "Tom saw Tom.".

(** The graph after one [update_graph] call on [tom_scene]. *)
Definition tom_once : NarrativeGraphManager.db :=
  NarrativeGraphManager.update_graph
    three_sentences dumps_empty NarrativeGraphManager.load_character_aliases
    NarrativeGraphManager.empty tom_scene "meso".

(** One scene; its four node ids are [character_ann],
    [character_bob_motif_frost], [character_ann_character_bob] and
    [motif_frost], each extracted once. *)
Definition frost_scene : NarrativeGraphManager.seg :=
  scene "meso_ch1_0" "Ann saw Bob Motif Frost and Ann Character Bob in the frost.".

Definition alice_carol : list (NarrativeGraphManager.seg * string) :=
  [(scene "meso_ch1_0" "Alice met Carol.", "meso");
   (scene "meso_ch1_1" "Carol met Alice.", "meso")].

(** *** Retriever states: vectors are numbers, every text embeds to 1 *)

Definition embed_one : string -> nat := fun _ => 1%nat.

(** A search that returns position 0 with score 1. *)
Definition search_first : list nat -> nat -> Z -> list (Q * Z) :=
  fun _ _ _ => [(1%Q, 0)].

(** The disk after an earlier run left one vector in the micro index. *)
Definition one_persisted : FractalRetriever.world nat :=
  {| FractalRetriever.index_files := {[ FractalRetriever.MICRO_INDEX_PATH := [7%nat] ]};
     FractalRetriever.meta_files := ∅;
     FractalRetriever.graph := NarrativeGraphManager.empty |}.

Definition one_micro : list AnySegment.t := [AnySegment.Micro (micro "m0" 0 4)].

(** A new instance after its first [index_segments] call, on that disk. *)
Definition after_load : FractalRetriever.t nat * FractalRetriever.world nat :=
  fst (FractalRetriever.index_segments
         nat no_entities dumps_empty embed_one
         (FractalRetriever.new nat) one_persisted one_micro "micro").

End Samples.

(** * Reading texts *)

Module ObserveText.

(** A double or a single quote. *)
Definition is_quote (c : ascii) : bool :=
  (Ascii.eqb c Text.dquote || Ascii.eqb c Text.squote)%bool.

End ObserveText.

(** * Reading rows *)

Module ObserveRows.

(** The columns of a node row that no statement of the program updates. *)
Definition node_identity (r : NodeRow.t)
  : string * string * string * option string :=
  (NodeRow.node_id r, NodeRow.node_type r, NodeRow.canonical_name r,
   NodeRow.attributes r).

(** The columns of an edge row that no statement of the program updates. *)
Definition edge_identity (r : EdgeRow.t)
  : string * string * string * string * option string :=
  (EdgeRow.edge_id r, EdgeRow.from_node r, EdgeRow.to_node r,
   EdgeRow.edge_type r, EdgeRow.evidence r).

(** The key of a link row. *)
Definition link_key (r : LinkRow.t) : string * string :=
  (LinkRow.segment_id r, LinkRow.node_id r).

(** Every node id is the one computed from the type and canonical name of
    its row, and no id occurs twice. *)
Definition well_keyed (d : NarrativeGraphManager.db) : Prop :=
  List.NoDup (List.map NodeRow.node_id (NarrativeGraphManager.nodes d))
  /\ forall r, In r (NarrativeGraphManager.nodes d) ->
       NodeRow.node_id r
       = NarrativeGraphManager.make_node_id (NodeRow.node_type r) (NodeRow.canonical_name r).

(** The decoding of one attribute cell, as the loop does it. *)
Definition decode (loads : string -> option Json.t) (attributes : option string) : Py.res Json.t :=
  match attributes with
  | Some a =>
      if String.eqb a EmptyString then Py.Ok (Json.Obj [])
      else match loads a with
           | Some v => Py.Ok v
           | None => Py.Raise Py.JSONDecodeError
           end
  | None => Py.Ok (Json.Obj [])
  end.

(** [sid] is linked to a node of canonical name [name]. *)
Definition linked (d : NarrativeGraphManager.db) (sid name : string) : Prop :=
  exists s n,
    In s (NarrativeGraphManager.segment_nodes d) /\ In n (NarrativeGraphManager.nodes d)
    /\ LinkRow.node_id s = NodeRow.node_id n
    /\ LinkRow.segment_id s = sid
    /\ NodeRow.canonical_name n = name.

(** Every endpoint of an edge and every node of a link is the id of a node
    row (the foreign keys of the schema). *)
Definition referenced (d : NarrativeGraphManager.db) : Prop :=
  (forall e, In e (NarrativeGraphManager.edges d) ->
     In (EdgeRow.from_node e)
        (List.map NodeRow.node_id (NarrativeGraphManager.nodes d))
     /\ In (EdgeRow.to_node e)
           (List.map NodeRow.node_id (NarrativeGraphManager.nodes d)))
  /\ (forall l, In l (NarrativeGraphManager.segment_nodes d) ->
        In (LinkRow.node_id l)
           (List.map NodeRow.node_id (NarrativeGraphManager.nodes d))).

(** The number of edge rows that leave the node [nid], that reach it, and
    that do both (an edge from the node to itself). *)
Definition leaving (es : list EdgeRow.t) (nid : string) : Z :=
  Z.of_nat (count_occ String.string_dec (List.map EdgeRow.from_node es) nid).

Definition reaching (es : list EdgeRow.t) (nid : string) : Z :=
  Z.of_nat (count_occ String.string_dec (List.map EdgeRow.to_node es) nid).

Definition looping (es : list EdgeRow.t) (nid : string) : Z :=
  Z.of_nat (count_occ String.string_dec
              (List.map EdgeRow.to_node
                 (List.filter (fun e => String.eqb (EdgeRow.from_node e) nid) es))
              nid).

End ObserveRows.

Module MoreSamples.

(** A decoder that reads every text as the empty object. *)
Definition loads_empty : string -> option Json.t := fun _ => Some (Json.Obj []).

(** A disk without files and a graph without rows. *)
Definition clean_disk : FractalRetriever.world nat :=
  {| FractalRetriever.index_files := ∅;
     FractalRetriever.meta_files := ∅;
     FractalRetriever.graph := NarrativeGraphManager.empty |}.

End MoreSamples.

(** * Reading the retriever *)

Module ObserveIndex.

(** The metadata records sit at the positions of their vectors: as many
    records as vectors, and the record at position [i] has embedding id
    [i]. *)
Definition aligned {V} (index : list V) (meta : list AnySegment.t) : Prop :=
  List.length meta = List.length index
  /\ forall i seg, nth_error meta i = Some seg ->
       AnySegment.embedding_id seg = Some (Z.of_nat i).

End ObserveIndex.

(** * Reading cluster labels *)

Module ObserveClusters.

(** The positions that carry the label [cid], ascending. *)
Definition positions (labels : list Z) (cid : Z) : list Z :=
  List.map fst
    (List.filter (fun p : Z * Z => snd p =? cid) (MotifClusterer.enumerate labels)).

(** Every word of the four lexicons of [generate_motif_label]. *)
Definition lexicon : list string :=
  ["frost"; "cold"; "ice"; "frozen"; "purple"; "violet"; "stain";
   "water"; "rain"; "river"; "ocean"; "dark"; "shadow"; "night"; "darkness"].

(** What the first loop of [cluster_embeddings] has built after the
    (position, label) pairs [pre]: one group per label that is not noise,
    holding the positions of the label. *)
Definition grouped (pre : list (Z * Z)) (g : list (Z * list Z)) : Prop :=
  List.NoDup (List.map fst g)
  /\ (forall k vs, In (k, vs) g ->
        0 <= k
        /\ vs = List.map fst (List.filter (fun p : Z * Z => snd p =? k) pre))
  /\ (forall p, In p pre -> 0 <= snd p -> In (snd p) (List.map fst g)).

End ObserveClusters.

Module WitnessInputs.

(** A new instance after its first [index_segments] call on a clean disk. *)
Definition first_call : FractalRetriever.t nat * FractalRetriever.world nat :=
  fst (FractalRetriever.index_segments
         nat Samples.no_entities Samples.dumps_empty Samples.embed_one
         (FractalRetriever.new nat) MoreSamples.clean_disk Samples.one_micro "micro").

Definition one_meso : list AnySegment.t :=
  [AnySegment.Meso
     {| MesoSegment.id := "meso_ch1_0";
        MesoSegment.chapter := "ch1";
        MesoSegment.start_char := 0;
        MesoSegment.end_char := 4;
        MesoSegment.text := "One.";
        MesoSegment.micro_ids := ["m0"];
        MesoSegment.scene_type := Some "transition";
        MesoSegment.embedding_id := None |}].

(** A new instance after indexing one micro and one meso segment on a clean
    disk. *)
Definition two_scales : FractalRetriever.t nat * FractalRetriever.world nat :=
  FractalRetriever.run_index
    nat Samples.no_entities Samples.dumps_empty Samples.embed_one
    (FractalRetriever.new nat) MoreSamples.clean_disk
    [(Samples.one_micro, "micro"); (one_meso, "meso")].

(** Labels of seven embeddings: three in cluster 0, two in cluster 1, one
    in cluster 2 and one noise. *)
Definition seven_labels : list Z := [0; -1; 1; 0; 1; 2; 0].

Definition seven_texts : list string := ["a"; "b"; "c"; "ice"; "e"; "f"; "g"].

End WitnessInputs.

(** * Properties *)

(** ** Segmenter *)

Section SegmenterFacts.

Import MultiScaleSegmenter.

Lemma Qgtb_true (a b : Q) : Qgtb a b = true <-> (b < a)%Q.
Proof.
  unfold Qgtb. rewrite negb_true_iff.
  destruct (Qle_bool a b) eqn:E.
  - apply Qle_bool_iff in E. split; [discriminate|].
    intros H. exfalso. exact (Qlt_not_le _ _ H E).
  - split; [intros _|reflexivity].
    apply Qnot_le_lt. intros H. apply Qle_bool_iff in H. congruence.
Qed.

Lemma Qgtb_false (a b : Q) : Qgtb a b = false <-> ~ (b < a)%Q.
Proof.
  rewrite <- Qgtb_true. destruct (Qgtb a b); split; congruence.
Qed.

(** C6, as the code has it.  The scene type is decided in strict priority
    order: dialogue when the quote density exceeds 0.05; otherwise action
    when the text has more than 5 (at least 6) action-verb hits; otherwise
    transition when the text is shorter than 500 characters; otherwise
    description. *)
Theorem classify_scene_type_priority (text : string) :
  ((5 # 100 < dialogue_ratio text)%Q ->
   classify_scene_type text = "dialogue")
  /\ (~ (5 # 100 < dialogue_ratio text)%Q -> 6 <= action_words text ->
      classify_scene_type text = "action")
  /\ (~ (5 # 100 < dialogue_ratio text)%Q -> action_words text <= 5 ->
      Py.len text < 500 ->
      classify_scene_type text = "transition")
  /\ (~ (5 # 100 < dialogue_ratio text)%Q -> action_words text <= 5 ->
      500 <= Py.len text ->
      classify_scene_type text = "description").
Proof.
  unfold classify_scene_type.
  repeat split.
  - intros H. apply Qgtb_true in H. now rewrite H.
  - intros H Ha. apply Qgtb_false in H. rewrite H.
    destruct (Z.ltb_spec 5 (action_words text)); [reflexivity | lia].
  - intros H Ha Hl. apply Qgtb_false in H. rewrite H.
    destruct (Z.ltb_spec 5 (action_words text)); [lia|].
    destruct (Z.ltb_spec (Py.len text) 500); [reflexivity | lia].
  - intros H Ha Hl. apply Qgtb_false in H. rewrite H.
    destruct (Z.ltb_spec 5 (action_words text)); [lia|].
    destruct (Z.ltb_spec (Py.len text) 500); [lia | reflexivity].
Qed.

(** The four cases of [classify_scene_type_priority] on concrete texts. *)
Lemma classify_scene_type_priority_witness :
  classify_scene_type Samples.quoted = "dialogue"
  /\ classify_scene_type Samples.six_hits = "action"
  /\ classify_scene_type Samples.five_hits = "transition".
Proof.
  split; [|split].
  - apply (proj1 (classify_scene_type_priority Samples.quoted)).
    vm_compute. reflexivity.
  - apply (proj1 (proj2 (classify_scene_type_priority Samples.six_hits))).
    + vm_compute. discriminate.
    + vm_compute. discriminate.
  - apply (proj1 (proj2 (proj2 (classify_scene_type_priority Samples.five_hits)))).
    + vm_compute. discriminate.
    + vm_compute. discriminate.
    + vm_compute. reflexivity.
Defined.

(** C6, as the specification words it, fails on a text with exactly five
    action verbs: the code does not answer action. *)
Lemma classify_scene_type_five_hits :
  action_words Samples.five_hits = 5
  /\ ~ (5 # 100 < dialogue_ratio Samples.five_hits)%Q
  /\ AsSpecified.classify_scene_type_spec Samples.five_hits = "action"
  /\ classify_scene_type Samples.five_hits = "transition"
  /\ classify_scene_type Samples.five_hits
     <> AsSpecified.classify_scene_type_spec Samples.five_hits.
Proof.
  repeat split; try (vm_compute; congruence).
Qed.

(** *** Natural scene boundaries *)

Lemma natural_scenes_two (text chapter : string)
      (micro_segments : list MicroSegment.t) (a b : Z) :
  natural_scenes text chapter micro_segments [a; b]
  = match micro_ids_in micro_segments a b with
    | [] => []
    | ids =>
        [ {| MesoSegment.id := "meso_" ++ chapter ++ "_" ++ pretty 0%nat;
             MesoSegment.chapter := chapter;
             MesoSegment.start_char := a;
             MesoSegment.end_char := b;
             MesoSegment.text := Py.str_slice text a b;
             MesoSegment.micro_ids := ids;
             MesoSegment.scene_type :=
               Some (classify_scene_type (Py.str_slice text a b));
             MesoSegment.embedding_id := None |} ]
    end.
Proof.
  unfold natural_scenes, scene_window. cbn [List.length Nat.sub seq List.flat_map].
  cbn [Nat.add Nat.ltb Nat.leb nth].
  rewrite app_nil_r. reflexivity.
Qed.

(** C1, what the code does.  When [detect_scene_breaks] finds exactly the two
    offsets 0 and [p], the loop over [range(len(scene_breaks) - 1)] runs
    once: [create_meso_segments] returns at most one meso segment, the
    window from 0 to [p]; the micro segments after [p] are in none. *)
Theorem create_meso_segments_two_breaks
        (nlp : string -> list Ent.t) (self : t) (text chapter : string)
        (micro_segments : list MicroSegment.t) (p : Z) :
  detect_scene_breaks nlp text = [0; p] ->
  exists segs,
    create_meso_segments nlp self text chapter micro_segments = Py.Ok segs
    /\ (List.length segs <= 1)%nat
    /\ forall s, In s segs ->
         MesoSegment.start_char s = 0
         /\ MesoSegment.end_char s = p
         /\ MesoSegment.micro_ids s = micro_ids_in micro_segments 0 p.
Proof.
  intros Hb. unfold create_meso_segments. rewrite Hb.
  cbn [List.length Nat.ltb Nat.leb].
  eexists. split; [reflexivity|].
  rewrite natural_scenes_two.
  destruct (micro_ids_in micro_segments 0 p) as [|i ids] eqn:E.
  - split; [cbn; lia | intros m []].
  - split; [cbn; lia|].
    intros m [<- | []]. cbn. auto.
Qed.

(** The text "One.", an asterisk row, "Two." with one micro segment on each
    side of the row: the code returns the first scene only. *)
Lemma create_meso_segments_two_breaks_witness :
  detect_scene_breaks Samples.no_entities Samples.two_scenes = [0; 4]
  /\ exists segs,
       create_meso_segments Samples.no_entities default Samples.two_scenes "ch1"
                            Samples.two_scenes_micro = Py.Ok segs
       /\ (List.length segs <= 1)%nat
       /\ forall s, In s segs ->
            MesoSegment.start_char s = 0
            /\ MesoSegment.end_char s = 4
            /\ MesoSegment.micro_ids s
               = micro_ids_in Samples.two_scenes_micro 0 4.
Proof.
  split; [vm_compute; reflexivity|].
  apply (create_meso_segments_two_breaks Samples.no_entities default
           Samples.two_scenes "ch1" Samples.two_scenes_micro 4).
  vm_compute. reflexivity.
Defined.

Example create_meso_segments_two_scenes :
  option_map (List.map MesoSegment.micro_ids)
    (match create_meso_segments Samples.no_entities default Samples.two_scenes
             "ch1" Samples.two_scenes_micro with
     | Py.Ok segs => Some segs
     | Py.Raise _ => None
     end)
  = Some [["m0"]].
Proof. vm_compute. reflexivity. Qed.

End SegmenterFacts.

(** ** Narrative graph *)

Section GraphFacts.

Import NarrativeGraphManager.

(** The values of the built-in alias table. *)
Lemma load_character_aliases_values (k v : string) :
  load_character_aliases !! k = Some v ->
  v = "Thomas" \/ v = "Robert" \/ v = "Miranda".
Proof.
  unfold load_character_aliases. intros H.
  repeat (apply lookup_insert_Some in H as [[_ <-] | [_ H]]; [tauto|]).
  rewrite lookup_empty in H. discriminate.
Qed.

(** C10.  With the built-in alias table, canonicalising a character name
    twice gives the same name as canonicalising it once; for any alias table
    and any node type other than character, [canonicalize] returns the name
    unchanged. *)
Theorem canonicalize_idempotent (name : string) :
  canonicalize load_character_aliases
    (canonicalize load_character_aliases name "character") "character"
  = canonicalize load_character_aliases name "character"
  /\ forall (aliases : gmap string string) (node_type : string),
      node_type <> "character" ->
      canonicalize aliases name node_type = name.
Proof.
  split.
  - unfold canonicalize. cbn [String.eqb Ascii.eqb Bool.eqb].
    destruct (load_character_aliases !! Text.lower name) as [v|] eqn:E; cbn [default].
    + destruct (load_character_aliases_values _ _ E) as [-> | [-> | ->]];
        vm_compute; reflexivity.
    + rewrite E. reflexivity.
  - intros aliases node_type Hne. unfold canonicalize.
    destruct (String.eqb_spec node_type "character"); [contradiction | reflexivity].
Qed.

Lemma canonicalize_idempotent_witness :
  canonicalize load_character_aliases
    (canonicalize load_character_aliases "Tommy" "character") "character"
  = "Thomas"
  /\ canonicalize load_character_aliases "Tommy" "setting" = "Tommy".
Proof.
  split.
  - rewrite (proj1 (canonicalize_idempotent "Tommy")). vm_compute. reflexivity.
  - apply (proj2 (canonicalize_idempotent "Tommy")). discriminate.
Defined.

(** *** Queries *)

Lemma flat_map_nil {A B} (f : A -> list B) (l : list A) :
  (forall x, In x l -> f x = []) -> List.flat_map f l = [].
Proof.
  induction l as [|a l IH]; intros H; [reflexivity|].
  cbn. rewrite (H a (or_introl eq_refl)). apply IH.
  intros x Hx. apply H. now right.
Qed.

Lemma existsb_eqb_In (x : string) (l : list string) :
  existsb (String.eqb x) l = true <-> In x l.
Proof.
  rewrite existsb_exists. split.
  - intros [y [Hy E]]. apply String.eqb_eq in E. now subst.
  - intros H. exists x. split; [assumption | apply String.eqb_refl].
Qed.

(** C8, as the code has it.  When no node linked to a segment has its
    canonical name among the requested names, [query_graph] returns the
    empty list as long as the request holds no more names than SQLite
    accepts variables in one statement; for a longer request it raises
    [sqlite3.OperationalError], whatever the names. *)
Theorem query_graph_unknown_names (variable_limit : Z) (d : db)
        (node_names : list string) (edge_type : option string) :
  (forall s n,
      In s (segment_nodes d) -> In n (nodes d) ->
      LinkRow.node_id s = NodeRow.node_id n ->
      ~ In (NodeRow.canonical_name n) node_names) ->
  (Z.of_nat (List.length node_names) <= variable_limit ->
   query_graph variable_limit d node_names edge_type = Py.Ok [])
  /\ (variable_limit < Z.of_nat (List.length node_names) ->
      query_graph variable_limit d node_names edge_type
      = Py.Raise Py.OperationalError).
Proof.
  intros H. unfold query_graph. split; intros Hlen.
  - destruct (Z.ltb_spec variable_limit (Z.of_nat (List.length node_names)));
      [lia|].
    assert (E : select_named d node_names = []).
    { unfold select_named.
      rewrite flat_map_nil; [reflexivity|].
      intros s Hs. apply flat_map_nil. intros n Hn.
      destruct (String.eqb_spec (LinkRow.node_id s) (NodeRow.node_id n)) as [E|E];
        [|reflexivity].
      destruct (existsb (String.eqb (NodeRow.canonical_name n)) node_names) eqn:Ex;
        [|reflexivity].
      apply existsb_eqb_In in Ex. exfalso. exact (H s n Hs Hn E Ex). }
    rewrite E. reflexivity.
  - destruct (Z.ltb_spec variable_limit (Z.of_nat (List.length node_names)));
      [reflexivity | lia].
Qed.

Lemma unknown_to_alice_frost (node_names : list string) :
  ~ In "Alice" node_names -> ~ In "frost" node_names ->
  forall s n,
    In s (segment_nodes Samples.alice_frost) -> In n (nodes Samples.alice_frost) ->
    LinkRow.node_id s = NodeRow.node_id n ->
    ~ In (NodeRow.canonical_name n) node_names.
Proof.
  intros Ha Hf s n _ Hn _. cbn in Hn.
  destruct Hn as [<- | [<- | []]]; assumption.
Qed.

(** Two unknown names, on a stock SQLite: the empty list. *)
Lemma query_graph_unknown_names_witness :
  query_graph SQLITE_MAX_VARIABLE_NUMBER Samples.alice_frost ["Nobody"; "storm"] None
  = Py.Ok [].
Proof.
  apply (query_graph_unknown_names
           SQLITE_MAX_VARIABLE_NUMBER Samples.alice_frost ["Nobody"; "storm"] None).
  - apply unknown_to_alice_frost; cbn; intros [E | [E | []]]; discriminate E.
  - vm_compute. discriminate.
Defined.

(** C8, as the specification words it, fails on a request of 32767 unknown
    names on a stock SQLite, which accepts 32766 variables: the list is not
    empty, none of its names is the canonical name of a linked node, and
    the call raises instead of returning the empty list. *)
Lemma query_graph_too_many_names :
  Samples.many_unknown <> []
  /\ (forall s n,
         In s (segment_nodes Samples.alice_frost) ->
         In n (nodes Samples.alice_frost) ->
         LinkRow.node_id s = NodeRow.node_id n ->
         ~ In (NodeRow.canonical_name n) Samples.many_unknown)
  /\ query_graph SQLITE_MAX_VARIABLE_NUMBER Samples.alice_frost
                 Samples.many_unknown None
     = Py.Raise Py.OperationalError
  /\ query_graph SQLITE_MAX_VARIABLE_NUMBER Samples.alice_frost
                 Samples.many_unknown None
     <> Py.Ok [].
Proof.
  assert (E : query_graph SQLITE_MAX_VARIABLE_NUMBER Samples.alice_frost
                          Samples.many_unknown None
              = Py.Raise Py.OperationalError) by (vm_compute; reflexivity).
  repeat apply conj.
  - discriminate.
  - apply unknown_to_alice_frost; intros Hin;
      apply List.repeat_spec in Hin; discriminate Hin.
  - exact E.
  - rewrite E. discriminate.
Qed.

(** *** Continuity *)



End GraphFacts.

(** ** Upserts on a keyed table *)

Section KeyedFacts.

Context {A : Type}.
Variable key : A -> string.
Variable counter : A -> Z.
Variable bump : A -> A.
Hypothesis key_bump : forall r, key (bump r) = key r.
Hypothesis counter_bump : forall r, counter (bump r) = counter r + 1.

#[local] Abbreviation bump_if := (Keyed.bump_if key bump).
#[local] Abbreviation has := (Keyed.has key).
#[local] Abbreviation upsert := (Keyed.upsert key bump).
#[local] Abbreviation count_of := (Keyed.count_of key counter).

Lemma key_bump_if (k : string) (r : A) : key (bump_if k r) = key r.
Proof. unfold Keyed.bump_if. destruct (String.eqb (key r) k); auto. Qed.

Lemma has_In (k : string) (rows : list A) :
  has k rows = true <-> In k (List.map key rows).
Proof.
  unfold Keyed.has. rewrite existsb_exists, in_map_iff. split.
  - intros [r [Hr E]]. apply String.eqb_eq in E. eauto.
  - intros [r [E Hr]]. exists r. split; [assumption|]. now apply String.eqb_eq.
Qed.

Lemma keys_upsert (row : A) (rows : list A) :
  List.map key (upsert row rows)
  = if has (key row) rows then List.map key rows
    else (List.map key rows ++ [key row])%list.
Proof.
  unfold Keyed.upsert. destruct (has (key row) rows).
  - rewrite List.map_map. apply List.map_ext. intros r. apply key_bump_if.
  - now rewrite List.map_app.
Qed.

(** The key column stays free of duplicates. *)
Lemma NoDup_upsert (row : A) (rows : list A) :
  List.NoDup (List.map key rows) -> List.NoDup (List.map key (upsert row rows)).
Proof.
  intros H. rewrite keys_upsert.
  destruct (has (key row) rows) eqn:E; [assumption|].
  apply List.NoDup_app; repeat split.
  - assumption.
  - repeat constructor. intros [].
  - intros k Hk [<- | []]. apply has_In in Hk. congruence.
Qed.

Lemma count_of_bumped (k k' : string) (rows : list A) :
  count_of (List.map (bump_if k) rows) k'
  = count_of rows k'
    + (if (String.eqb k k' && has k' rows)%bool then 1 else 0).
Proof.
  unfold Keyed.count_of, Keyed.has.
  induction rows as [|r rows IH]; cbn [List.map List.find existsb].
  - rewrite andb_false_r. reflexivity.
  - rewrite key_bump_if.
    destruct (String.eqb_spec (key r) k') as [E|E].
    + cbn [orb]. unfold Keyed.bump_if.
      destruct (String.eqb_spec (key r) k) as [E'|E'].
      * rewrite counter_bump.
        destruct (String.eqb_spec k k'); [cbn; lia | congruence].
      * destruct (String.eqb_spec k k'); [congruence | cbn; lia].
    + cbn [orb]. exact IH.
Qed.

Lemma count_of_app_absent (k : string) (rows : list A) (row : A) :
  count_of (rows ++ [row]) k
  = if has k rows then count_of rows k
    else if String.eqb (key row) k then counter row else 0.
Proof.
  unfold Keyed.count_of, Keyed.has.
  induction rows as [|r rows IH]; cbn [List.app List.find existsb].
  - destruct (String.eqb (key row) k); reflexivity.
  - destruct (String.eqb (key r) k); [reflexivity | exact IH].
Qed.

Lemma count_of_absent (k : string) (rows : list A) :
  has k rows = false -> count_of rows k = 0.
Proof.
  unfold Keyed.count_of, Keyed.has.
  induction rows as [|r rows IH]; cbn [List.find existsb]; [reflexivity|].
  destruct (String.eqb (key r) k); [discriminate | exact IH].
Qed.

(** One upsert of a row whose counter is 1 adds 1 to the counter read under
    its key and leaves the others. *)
Lemma count_of_upsert (row : A) (rows : list A) (k : string) :
  counter row = 1 ->
  count_of (upsert row rows) k
  = count_of rows k + (if String.eqb (key row) k then 1 else 0).
Proof.
  intros H1. unfold Keyed.upsert.
  destruct (has (key row) rows) eqn:E.
  - rewrite count_of_bumped.
    destruct (String.eqb_spec (key row) k) as [<-|]; [|reflexivity].
    rewrite E. reflexivity.
  - rewrite count_of_app_absent.
    destruct (String.eqb_spec (key row) k) as [<-|].
    + rewrite E, (count_of_absent _ _ E). lia.
    + destruct (has k rows) eqn:E'; [lia|].
      rewrite (count_of_absent _ _ E'). lia.
Qed.

(** A sequence of upserts adds to each counter the number of rows of its key. *)
Lemma count_of_upserts (news rows : list A) (k : string) :
  (forall r, In r news -> counter r = 1) ->
  count_of (List.fold_left (fun acc r => upsert r acc) news rows) k
  = count_of rows k
    + Z.of_nat (count_occ String.string_dec (List.map key news) k).
Proof.
  revert rows. induction news as [|n news IH]; intros rows H1.
  - cbn. lia.
  - cbn [List.fold_left List.map count_occ].
    rewrite IH by (intros r Hr; apply H1; now right).
    rewrite count_of_upsert by (apply H1; now left).
    destruct (String.string_dec (key n) k) as [E|E].
    + rewrite E, String.eqb_refl. lia.
    + destruct (String.eqb_spec (key n) k); [contradiction | lia].
Qed.

Lemma NoDup_upserts (news rows : list A) :
  List.NoDup (List.map key rows) ->
  List.NoDup (List.map key (List.fold_left (fun acc r => upsert r acc) news rows)).
Proof.
  revert rows. induction news as [|n news IH]; intros rows H; [exact H|].
  cbn [List.fold_left]. apply IH. now apply NoDup_upsert.
Qed.

End KeyedFacts.

(** ** Positions of the extracted list *)

Section PositionFacts.

Import NarrativeGraphManager Observe.

Lemma filter_map_pair (f : nat * nat -> bool) (i : nat) (l : list nat) :
  List.filter f (List.map (pair i) l)
  = List.map (pair i) (List.filter (fun j => f (i, j)) l).
Proof.
  induction l as [|a l IH]; cbn [List.map List.filter]; [reflexivity|].
  destruct (f (i, a)); cbn [List.map]; now rewrite IH.
Qed.

Lemma filter_list_prod (f : nat * nat -> bool) (l l' : list nat) :
  List.filter f (list_prod l l')
  = List.flat_map
      (fun i => List.map (pair i) (List.filter (fun j => f (i, j)) l')) l.
Proof.
  induction l as [|a l IH]; cbn [list_prod List.flat_map]; [reflexivity|].
  now rewrite List.filter_app, filter_map_pair, IH.
Qed.

Lemma filter_above (i a m : nat) :
  List.filter (fun j => (i <? j)%nat) (seq a m)
  = seq (Nat.max a (S i)) (a + m - Nat.max a (S i)).
Proof.
  revert a. induction m as [|m IH]; intros a; cbn [seq List.filter].
  - replace (a + 0 - Nat.max a (S i))%nat with 0%nat by lia. reflexivity.
  - rewrite IH. destruct (Nat.ltb_spec i a).
    + replace (Nat.max a (S i)) with a by lia.
      replace (Nat.max (S a) (S i)) with (S a) by lia.
      replace (a + S m - a)%nat with (S m) by lia.
      replace (S a + m - S a)%nat with m by lia. reflexivity.
    + replace (Nat.max (S a) (S i)) with (S i) by lia.
      replace (Nat.max a (S i)) with (S i) by lia.
      f_equal. lia.
Qed.

(** The positions, row by row. *)
Lemma position_pairs_rows (n : nat) :
  position_pairs n
  = List.flat_map (fun i => List.map (pair i) (seq (S i) (n - S i))) (seq 0 n).
Proof.
  unfold position_pairs. rewrite filter_list_prod.
  apply List.flat_map_ext. intros i. cbn [fst snd].
  rewrite filter_above. reflexivity.
Qed.

Lemma rows_shift (n m a : nat) :
  List.flat_map (fun i => List.map (pair i) (seq (S i) (S n - S i))) (seq (S a) m)
  = List.map (fun p => (S (fst p), S (snd p)))
      (List.flat_map (fun i => List.map (pair i) (seq (S i) (n - S i))) (seq a m)).
Proof.
  revert a. induction m as [|m IH]; intros a; cbn [seq List.flat_map]; [reflexivity|].
  rewrite List.map_app, IH. f_equal.
  rewrite List.map_map. cbn [fst snd].
  rewrite <- List.seq_shift, List.map_map. reflexivity.
Qed.

Lemma position_pairs_S (n : nat) :
  position_pairs (S n)
  = (List.map (fun j => (0%nat, S j)) (seq 0 n)
       ++ List.map (fun p => (S (fst p), S (snd p))) (position_pairs n))%list.
Proof.
  rewrite !position_pairs_rows. cbn [seq List.flat_map]. f_equal.
  - rewrite <- List.seq_shift, List.map_map.
    replace (S n - 1)%nat with n by lia. reflexivity.
  - apply rows_shift.
Qed.

Lemma map_nth_seq {X} (l : list X) (d : X) :
  List.map (fun j => nth j l d) (seq 0 (List.length l)) = l.
Proof.
  induction l as [|x l IH]; cbn [List.length seq List.map nth]; [reflexivity|].
  f_equal. rewrite <- List.seq_shift, List.map_map. exact IH.
Qed.

(** The nested loops of [update_graph] visit the positions [i < j]. *)
Lemma pairs_positions {X} (l : list X) (d : X) :
  pairs l
  = List.map (fun p => (nth (fst p) l d, nth (snd p) l d))
             (position_pairs (List.length l)).
Proof.
  induction l as [|x r IH]; [reflexivity|].
  cbn [pairs List.length]. rewrite position_pairs_S, List.map_app, !List.map_map.
  cbn [fst snd nth]. f_equal; [|exact IH].
  rewrite <- (map_nth_seq r d) at 1. now rewrite List.map_map.
Qed.

Lemma In_position_pairs (n i j : nat) :
  In (i, j) (position_pairs n) -> (i < j < n)%nat.
Proof.
  unfold position_pairs. intros H. apply List.filter_In in H as [H Hlt].
  apply List.in_prod_iff in H as [_ H]. apply List.in_seq in H.
  cbn [fst snd] in Hlt. apply Nat.ltb_lt in Hlt. lia.
Qed.

Lemma count_occ_map_filter {X} (f : X -> string) (l : list X) (k : string) :
  count_occ String.string_dec (List.map f l) k
  = List.length (List.filter (fun x => String.eqb (f x) k) l).
Proof.
  induction l as [|x l IH]; cbn [List.map count_occ List.filter]; [reflexivity|].
  destruct (String.string_dec (f x) k) as [E|E], (String.eqb_spec (f x) k);
    try contradiction; cbn [List.length]; now rewrite IH.
Qed.

Lemma upserted_cooccurrences (ids : list string) (eid : string) :
  Z.of_nat (count_occ String.string_dec
              (List.map (fun p => make_edge_id (fst p) (snd p)) (pairs ids)) eid)
  = cooccurrences ids eid.
Proof.
  unfold cooccurrences.
  rewrite (pairs_positions ids EmptyString), List.map_map, count_occ_map_filter.
  reflexivity.
Qed.

End PositionFacts.

(** ** Where upserted rows come from *)

Section KeyedOrigins.

Context {A B : Type}.
Variable key : A -> string.
Variable bump : A -> A.
Variable proj : A -> B.
Hypothesis proj_bump : forall r, proj (bump r) = proj r.

Lemma In_upsert_origin (row : A) (rows : list A) (e : A) :
  In e (Keyed.upsert key bump row rows) ->
  exists e0, (In e0 rows \/ e0 = row) /\ proj e0 = proj e.
Proof.
  unfold Keyed.upsert. destruct (Keyed.has key (key row) rows).
  - intros H. apply in_map_iff in H as [e0 [<- H]]. exists e0. split; [now left|].
    unfold Keyed.bump_if. destruct (String.eqb _ _); auto.
  - intros H. apply in_app_or in H as [H | [<- | []]]; eauto.
Qed.

(** Every row after a sequence of upserts has the projected columns of a
    row that was there or of one of the new rows. *)
Lemma In_upserts_origin (news rows : list A) (e : A) :
  In e (List.fold_left (fun acc r => Keyed.upsert key bump r acc) news rows) ->
  exists e0, (In e0 rows \/ In e0 news) /\ proj e0 = proj e.
Proof.
  revert rows. induction news as [|n news IH]; intros rows; cbn [List.fold_left].
  - intros H. exists e. auto.
  - intros H. destruct (IH _ H) as [e1 [[H1|H1] E1]].
    + destruct (In_upsert_origin _ _ _ H1) as [e0 [[H0 | ->] E0]].
      * exists e0. split; [now left | congruence].
      * exists n. split; [right; now left | congruence].
    + exists e1. split; [right; now right | exact E1].
Qed.

Lemma NoDup_map_filter (p : A -> bool) (l : list A) :
  List.NoDup (List.map key l) -> List.NoDup (List.map key (List.filter p l)).
Proof.
  induction l as [|x l IH]; cbn [List.map List.filter]; [auto|].
  intros H. apply List.NoDup_cons_iff in H as [Hx H].
  destruct (p x); cbn [List.map]; [|now apply IH].
  apply List.NoDup_cons; [|now apply IH].
  intros Hin. apply Hx. apply in_map_iff in Hin as [y [E Hy]].
  apply List.filter_In in Hy as [Hy _]. apply in_map_iff. eauto.
Qed.

End KeyedOrigins.


(** ** Graph updates *)

Section GraphUpdateFacts.

Import NarrativeGraphManager Observe.

Variable nlp : string -> list Ent.t.
Variable dumps : Json.t -> string.
Variable character_aliases : gmap string string.

#[local] Abbreviation extract := (extract_entities nlp character_aliases).
#[local] Abbreviation update := (update_graph nlp dumps character_aliases).

Lemma upsert_node_keyed (row : NodeRow.t) (rows : list NodeRow.t) :
  upsert_node row rows = Keyed.upsert NodeRow.node_id more_frequent row rows.
Proof. reflexivity. Qed.

Lemma upsert_edge_keyed (row : EdgeRow.t) (rows : list EdgeRow.t) :
  upsert_edge row rows = Keyed.upsert EdgeRow.edge_id heavier row rows.
Proof. reflexivity. Qed.

Lemma fold_left_map {A B C} (f : A -> B -> A) (g : C -> B) (l : list C) (a : A) :
  List.fold_left f (List.map g l) a = List.fold_left (fun acc x => f acc (g x)) l a.
Proof. revert a. induction l as [|x l IH]; intros a; cbn; auto. Qed.

(** Recomputing the centralities keeps ids and frequencies. *)
Lemma nodes_update_centrality (d : db) :
  List.map NodeRow.node_id (nodes (update_centrality d))
  = List.map NodeRow.node_id (nodes d)
  /\ forall nid, frequency_of (nodes (update_centrality d)) nid
                 = frequency_of (nodes d) nid.
Proof.
  unfold update_centrality. cbn [nodes]. split.
  - rewrite List.map_map. reflexivity.
  - intros nid. unfold frequency_of, Keyed.count_of.
    induction (nodes d) as [|r rows IH]; [reflexivity|].
    cbn [List.map List.find NodeRow.node_id].
    destruct (String.eqb (NodeRow.node_id r) nid); [reflexivity | exact IH].
Qed.

Lemma nodes_apply_entities (d : db) (entities : list GraphNode.t)
      (segment : seg) (scale : string) :
  nodes (apply_entities dumps d entities segment scale)
  = List.fold_left
      (fun acc r => Keyed.upsert NodeRow.node_id more_frequent r acc)
      (List.map (node_row dumps) entities) (nodes d).
Proof. unfold apply_entities. cbn [nodes]. now rewrite fold_left_map. Qed.

Lemma edges_update_graph (d : db) (segment : seg) (scale : string) :
  edges (update d segment scale)
  = List.fold_left
      (fun acc r => Keyed.upsert EdgeRow.edge_id heavier r acc)
      (List.map (edge_row dumps segment scale)
                (pairs (extracted_ids nlp character_aliases segment scale)))
      (edges d).
Proof.
  unfold update_graph, update_centrality, apply_entities. cbn [edges].
  now rewrite fold_left_map.
Qed.

(** Node ids are computed from the type and the canonical name alone. *)
Lemma extract_entities_node_id (text segment_id scale : string) (e : GraphNode.t) :
  In e (extract text segment_id scale) ->
  GraphNode.node_id e
  = make_node_id (GraphNode.node_type e) (GraphNode.canonical_name e).
Proof.
  unfold extract_entities. intros H.
  apply in_app_or in H as [H|H]; apply in_flat_map in H.
  - destruct H as [ent [_ H]].
    destruct (_ || _)%bool; [|destruct H].
    destruct H as [<- | []]. reflexivity.
  - destruct H as [[motif ws] [Hm H]].
    unfold motif_patterns in Hm. simpl In in Hm.
    destruct Hm as [E|[E|[E|[E|[]]]]]; inversion E; subst motif ws; clear E;
      (destruct (Text.search _ text); [|destruct H]);
      destruct H as [<- | []]; vm_compute; reflexivity.
Qed.

(** C7, as the code has it.  One [update_graph] call adds to the stored
    frequency of every node the number of extracted entities of the call
    that carry its node id (1 when the entity is extracted once, 2 when it
    is mentioned twice in the segment), a new node starting from 0; the
    node ids of the table stay free of duplicates; and every extracted node
    id is the function [make_node_id] of the type and the canonical name. *)
Theorem update_graph_frequency (d : db) (segment : seg) (scale nid : string) :
  List.NoDup (List.map NodeRow.node_id (nodes d)) ->
  frequency_of (nodes (update d segment scale)) nid
  = frequency_of (nodes d) nid
    + Z.of_nat (count_occ String.string_dec
                          (extracted_ids nlp character_aliases segment scale) nid)
  /\ List.NoDup (List.map NodeRow.node_id (nodes (update d segment scale)))
  /\ forall e, In e (extract (text segment) (id segment) scale) ->
       GraphNode.node_id e
       = make_node_id (GraphNode.node_type e) (GraphNode.canonical_name e).
Proof.
  intros Hnd. unfold update_graph.
  destruct (nodes_update_centrality
              (apply_entities dumps d (extract (text segment) (id segment) scale)
                              segment scale)) as [Hk Hf].
  rewrite Hk, Hf, nodes_apply_entities. repeat split.
  - unfold frequency_of.
    rewrite (count_of_upserts NodeRow.node_id NodeRow.frequency more_frequent).
    + unfold extracted_ids. rewrite List.map_map. reflexivity.
    + reflexivity.
    + reflexivity.
    + intros r Hr. apply in_map_iff in Hr as [e [<- _]]. reflexivity.
  - apply (NoDup_upserts NodeRow.node_id more_frequent); [reflexivity | exact Hnd].
  - apply extract_entities_node_id.
Qed.

#[local] Abbreviation ids_of := (extracted_ids nlp character_aliases).

#[local] Abbreviation endpoints :=
  (fun e : EdgeRow.t => (EdgeRow.edge_id e, EdgeRow.from_node e, EdgeRow.to_node e)).

(** Where the edge rows after one call come from. *)
Lemma edges_update_origin (d : db) (segment : seg) (scale : string) (e : EdgeRow.t) :
  In e (edges (update d segment scale)) ->
  (exists e0, In e0 (edges d) /\ same_edge e0 e)
  \/ (joins_in_order (ids_of segment scale) e
      /\ EdgeRow.edge_id e = make_edge_id (EdgeRow.from_node e) (EdgeRow.to_node e)).
Proof.
  rewrite edges_update_graph. intros H.
  apply (In_upserts_origin EdgeRow.edge_id heavier endpoints (fun r => eq_refl))
    in H as [e0 [[H0|H0] E0]];
    injection E0 as Eid Ef Et.
  - left. exists e0. split; [exact H0|]. repeat split; assumption.
  - right. apply in_map_iff in H0 as [p [<- Hp]].
    cbn [edge_row EdgeRow.edge_id EdgeRow.from_node EdgeRow.to_node] in Eid, Ef, Et.
    rewrite (pairs_positions _ EmptyString) in Hp.
    apply in_map_iff in Hp as [[i j] [<- Hij]]. cbn [fst snd] in *.
    apply In_position_pairs in Hij.
    split; [exists i, j; auto | congruence].
Qed.

(** At most two rows join two given nodes when ids are unique and made
    from the endpoints. *)
Lemma edges_between_two (rows : list EdgeRow.t) (a b : string) :
  List.NoDup (List.map EdgeRow.edge_id rows) ->
  (forall e, In e rows ->
     EdgeRow.edge_id e = make_edge_id (EdgeRow.from_node e) (EdgeRow.to_node e)) ->
  (List.length (edges_between rows a b) <= 2)%nat.
Proof.
  intros Hnd Hid. unfold edges_between.
  rewrite <- (List.length_map EdgeRow.edge_id).
  change 2%nat with (List.length [make_edge_id a b; make_edge_id b a]).
  apply List.NoDup_incl_length; [now apply NoDup_map_filter|].
  intros k Hk. apply in_map_iff in Hk as [e [<- He]].
  apply List.filter_In in He as [He Hc]. rewrite (Hid e He).
  apply andb_prop in Hc as [_ Hc]. apply orb_prop in Hc as [Hc|Hc];
    apply andb_prop in Hc as [Hf Ht];
    apply String.eqb_eq in Hf, Ht; rewrite Hf, Ht; cbn; auto.
Qed.


#[local] Abbreviation ingested := (ingest nlp dumps character_aliases).

(** C2, as the code has it.  The id of a co-occurrence edge is
    [make_edge_id] of its endpoints, and an edge row that the calls add
    goes from a node id to one extracted at a later position of the same
    segment; the edge ids of the table stay free of duplicates, so at most
    two rows join two given nodes, one for each direction; and after any
    sequence of [update_graph] calls the weight stored under an edge id
    has grown by the number of pairs of positions [i < j], over the
    extracted lists of all the calls, whose node ids give that edge id. *)
Theorem ingest_edge_weights (d : db) (calls : list (seg * string)) (eid : string) :
  List.NoDup (List.map EdgeRow.edge_id (edges d)) ->
  (forall e, In e (edges d) ->
     EdgeRow.edge_id e = make_edge_id (EdgeRow.from_node e) (EdgeRow.to_node e)) ->
  List.NoDup (List.map EdgeRow.edge_id (edges (ingested d calls)))
  /\ (forall e, In e (edges (ingested d calls)) ->
        EdgeRow.edge_id e = make_edge_id (EdgeRow.from_node e) (EdgeRow.to_node e)
        /\ ((exists e0, In e0 (edges d) /\ same_edge e0 e)
            \/ exists segment scale,
                 In (segment, scale) calls
                 /\ joins_in_order (ids_of segment scale) e))
  /\ (forall a b,
        (List.length (edges_between (edges (ingested d calls)) a b) <= 2)%nat)
  /\ weight_of (edges (ingested d calls)) eid
     = weight_of (edges d) eid + cooccurrences_in nlp character_aliases calls eid.
Proof.
  intros Hnd Hid.
  assert (H : List.NoDup (List.map EdgeRow.edge_id (edges (ingested d calls)))
              /\ (forall e, In e (edges (ingested d calls)) ->
                    EdgeRow.edge_id e
                    = make_edge_id (EdgeRow.from_node e) (EdgeRow.to_node e)
                    /\ ((exists e0, In e0 (edges d) /\ same_edge e0 e)
                        \/ exists segment scale,
                             In (segment, scale) calls
                             /\ joins_in_order (ids_of segment scale) e))
              /\ weight_of (edges (ingested d calls)) eid
                 = weight_of (edges d) eid
                   + cooccurrences_in nlp character_aliases calls eid).
  { revert d Hnd Hid. induction calls as [|[segment scale] calls IH]; intros d Hnd Hid.
    - cbn. repeat split; [exact Hnd | now apply Hid | | lia].
      left. exists e. repeat split; auto.
    - unfold ingest in *. cbn [List.fold_left].
      assert (Hnd' : List.NoDup (List.map EdgeRow.edge_id
                                          (edges (update d segment scale)))).
      { rewrite edges_update_graph.
        apply (NoDup_upserts EdgeRow.edge_id heavier); [reflexivity | exact Hnd]. }
      assert (Hid' : forall e, In e (edges (update d segment scale)) ->
                       EdgeRow.edge_id e
                       = make_edge_id (EdgeRow.from_node e) (EdgeRow.to_node e)).
      { intros e He.
        destruct (edges_update_origin _ _ _ _ He)
          as [[e0 [H0 [E1 [E2 E3]]]] | [_ E]]; [|exact E].
        rewrite <- E1, <- E2, <- E3. now apply Hid. }
      destruct (IH _ Hnd' Hid') as [H1 [H2 H3]].
      split; [exact H1|]. split.
      + intros e He. destruct (H2 e He) as [E [[e1 [He1 S1]] | [sg [sc [Hin Hj]]]]].
        * split; [exact E|].
          destruct (edges_update_origin _ _ _ _ He1)
            as [[e0 [H0 S0]] | [Hj _]].
          -- left. exists e0. split; [exact H0|].
             destruct S0 as [? [? ?]], S1 as [? [? ?]].
             repeat split; congruence.
          -- right. exists segment, scale. split; [now left|].
             destruct Hj as [i [j [Hij [Ef Et]]]], S1 as [_ [Sf St]].
             exists i, j. repeat split; try lia; congruence.
        * split; [exact E|]. right. exists sg, sc. split; [now right | exact Hj].
      + rewrite H3. cbn [cooccurrences_in List.map List.fold_right].
        rewrite edges_update_graph.
        unfold weight_of.
        rewrite (count_of_upserts EdgeRow.edge_id EdgeRow.weight heavier).
        * rewrite List.map_map. cbn [edge_row EdgeRow.edge_id].
          rewrite upserted_cooccurrences. unfold cooccurrences_in. lia.
        * reflexivity.
        * reflexivity.
        * intros r Hr. apply in_map_iff in Hr as [e [<- _]]. reflexivity. }
  destruct H as [H1 [H2 H3]]. repeat split; try assumption; try (now apply H2).
  intros a b. apply edges_between_two; [exact H1|].
  intros e He. now apply H2.
Qed.


End GraphUpdateFacts.

Section GraphUpdateExamples.

Import NarrativeGraphManager Observe.

#[local] Abbreviation update3 :=
  (update_graph Samples.three_sentences Samples.dumps_empty load_character_aliases).
#[local] Abbreviation ingest3 :=
  (ingest Samples.three_sentences Samples.dumps_empty load_character_aliases).

(** On the empty graph, a scene that names Tom twice stores frequency 2. *)
Lemma update_graph_frequency_witness :
  frequency_of (nodes (update3 empty Samples.tom_scene "meso")) "character_thomas"
  = 0 + 2.
Proof.
  pose proof (update_graph_frequency
                Samples.three_sentences Samples.dumps_empty load_character_aliases
                empty Samples.tom_scene "meso" "character_thomas") as H.
  destruct H as [H _]; [constructor|].
  rewrite H. vm_compute. reflexivity.
Defined.

(** C7, as the specification words it, fails on a scene that names the same
    character twice: the call that re-extracts the node raises its
    frequency from 2 to 4, not by exactly 1. *)
Lemma update_graph_twice_mentioned :
  In "character_thomas"
     (extracted_ids Samples.three_sentences load_character_aliases
                    Samples.tom_scene "meso")
  /\ frequency_of (nodes Samples.tom_once) "character_thomas" = 2
  /\ frequency_of (nodes (update3 Samples.tom_once Samples.tom_scene "meso"))
                  "character_thomas" = 4
  /\ frequency_of (nodes (update3 Samples.tom_once Samples.tom_scene "meso"))
                  "character_thomas"
     <> frequency_of (nodes Samples.tom_once) "character_thomas" + 1.
Proof.
  repeat split; try (vm_compute; congruence).
  vm_compute. auto.
Qed.

(** One scene in which each of four node ids is extracted once: the pairs
    of positions (0, 1) and (2, 3) give the same edge id, which gets
    weight 2. *)
Lemma ingest_edge_weights_witness :
  extracted_ids Samples.long_names load_character_aliases Samples.frost_scene "meso"
  = ["character_ann"; "character_bob_motif_frost"; "character_ann_character_bob";
     "motif_frost"]
  /\ weight_of
       (edges (ingest Samples.long_names Samples.dumps_empty load_character_aliases
                      empty [(Samples.frost_scene, "meso")]))
       "character_ann_character_bob_motif_frost_cooccur"
     = 0 + 2.
Proof.
  split; [vm_compute; reflexivity|].
  pose proof (ingest_edge_weights
                Samples.long_names Samples.dumps_empty load_character_aliases
                empty [(Samples.frost_scene, "meso")]
                "character_ann_character_bob_motif_frost_cooccur") as H.
  destruct H as [_ [_ [_ H]]]; [constructor | intros e [] |].
  rewrite H. vm_compute. reflexivity.
Defined.

(** C2, as the specification words it, fails when two characters are
    extracted in one order in a first scene and in the other order in a
    second: the pair gets two edges, each of weight 1, although both were
    extracted together in two segments. *)
Lemma ingest_both_orders :
  List.map EdgeRow.edge_id
           (edges_between (edges (ingest3 empty Samples.alice_carol))
                          "character_alice" "character_carol")
  = ["character_alice_character_carol_cooccur";
     "character_carol_character_alice_cooccur"]
  /\ List.map EdgeRow.weight
              (edges_between (edges (ingest3 empty Samples.alice_carol))
                             "character_alice" "character_carol")
     = [1; 1]
  /\ extracted_together Samples.three_sentences load_character_aliases
                        Samples.alice_carol "character_alice" "character_carol"
     = 2
  /\ (1 < List.length
            (edges_between (edges (ingest3 empty Samples.alice_carol))
                           "character_alice" "character_carol"))%nat
  /\ weight_of (edges (ingest3 empty Samples.alice_carol))
               "character_alice_character_carol_cooccur"
     <> extracted_together Samples.three_sentences load_character_aliases
                           Samples.alice_carol
                           "character_alice" "character_carol".
Proof.
  repeat apply conj; vm_compute; try reflexivity; try lia; discriminate.
Qed.

End GraphUpdateExamples.

(** ** Slices *)

Section SliceFacts.

(** [l[:n]] is the first [n] elements of [l]. *)
Lemma slice_firstn {A} (l : list A) (n : nat) :
  Py.slice l 0 (Z.of_nat n) = firstn n l.
Proof.
  unfold Py.slice, Py.clamp.
  rewrite (proj2 (Z.ltb_ge 0 0)) by lia.
  rewrite (proj2 (Z.ltb_ge (Z.of_nat n) 0)) by lia.
  replace (Z.max 0 (Z.min (Z.of_nat (List.length l)) 0)) with 0 by lia.
  change (skipn (Z.to_nat 0) l) with l. rewrite Z.sub_0_r.
  destruct (Nat.le_gt_cases n (List.length l)).
  - f_equal. lia.
  - rewrite !firstn_all2 by lia. reflexivity.
Qed.

End SliceFacts.

(** ** Retriever *)

Section RetrieverFacts.

Import FractalRetriever.

Variable V : Type.
Context {F : Type} {num : Number F}.
Variable nlp : string -> list Ent.t.
Variable dumps : Json.t -> string.
Variable embed : string -> V.
Variable search : list V -> V -> Z -> list (F * Z).

#[local] Abbreviation retrieve := (fractal_retrieve V nlp embed search).
#[local] Abbreviation index_segs := (index_segments V nlp dumps embed).
#[local] Abbreviation run := (run_index V nlp dumps embed).

(** *** Where results come from *)

Lemma In_insert_desc (x y : result) (l : list result) :
  In x (insert_desc y l) -> x = y \/ In x l.
Proof.
  induction l as [|z l IH]; cbn.
  - intros [<- | []]. now left.
  - destruct (ltb (score z) (score y)); cbn.
    + intros [<- | H]; auto.
    + intros [<- | H]; auto. destruct (IH H); auto.
Qed.

Lemma In_sort_desc (x : result) (l : list result) :
  In x (sort_desc l) -> In x l.
Proof.
  unfold sort_desc.
  assert (H : forall acc, In x (List.fold_left (fun a y => insert_desc y a) l acc)
                          -> In x l \/ In x acc).
  { induction l as [|y l IH]; intros acc; cbn; [auto|].
    intros H. destruct (IH _ H) as [H'|H']; [auto|].
    destruct (In_insert_desc _ _ _ H'); auto. }
  intros Hx. destruct (H _ Hx) as [|[]]. assumption.
Qed.

Lemma In_slice {A} (x : A) (l : list A) (a b : Z) :
  In x (Py.slice l a b) -> In x l.
Proof.
  unfold Py.slice. intros H.
  set (n := Z.to_nat (Py.clamp (Z.of_nat (List.length l)) a)) in *.
  rewrite <- (firstn_skipn n l). apply in_or_app. right.
  set (m := Z.to_nat _) in H.
  rewrite <- (firstn_skipn m (skipn n l)). apply in_or_app. now left.
Qed.

Lemma insert_desc_In (x y : result) (l : list result) :
  x = y \/ In x l -> In x (insert_desc y l).
Proof.
  induction l as [|z l IH]; cbn [insert_desc In].
  - intros [-> | []]. now left.
  - destruct (ltb (score z) (score y)); cbn [In].
    + intros [-> | [-> | H]]; auto.
    + intros [-> | [-> | H]]; auto.
Qed.

Lemma sort_desc_In (x : result) (l : list result) :
  In x l -> In x (sort_desc l).
Proof.
  unfold sort_desc.
  assert (H : forall acc, In x l \/ In x acc ->
                          In x (List.fold_left (fun a y => insert_desc y a) l acc)).
  { induction l as [|y l IH]; intros acc; cbn [List.fold_left In].
    - intros [[] | H]. exact H.
    - intros [[<- | H] | H]; apply IH.
      + right. apply insert_desc_In. now left.
      + now left.
      + right. apply insert_desc_In. now right. }
  intros Hx. apply H. now left.
Qed.

Lemma length_sort_desc (l : list result) :
  List.length (sort_desc l) = List.length l.
Proof.
  unfold sort_desc.
  assert (Hi : forall x acc, List.length (insert_desc x acc) = S (List.length acc)).
  { intros x acc. induction acc as [|y acc IH]; cbn [insert_desc]; [reflexivity|].
    destruct (ltb (score y) (score x)); cbn [List.length]; auto. }
  assert (H : forall acc,
             List.length (List.fold_left (fun a x => insert_desc x a) l acc)
             = (List.length l + List.length acc)%nat).
  { induction l as [|x l IH]; intros acc; cbn [List.fold_left List.length];
      [reflexivity|].
    rewrite IH, Hi. lia. }
  rewrite H. cbn. lia.
Qed.

#[local] Abbreviation scored := (ObserveRetrieval.scored_with V nlp embed search).
#[local] Abbreviation candidate := (ObserveRetrieval.candidate V nlp embed search).

(** The candidates of a scale are the entries made from the hits of its
    search under its weight. *)
Lemma scale_results_scored (r : t V) (w : world V) (query : string) (k : Z)
      (s : string) (weight : F) (x : result) :
  In x (scale_results V nlp search r w query (embed query) k s weight)
  <-> scale x = s /\ scored r w query k weight x.
Proof.
  unfold scale_results, ObserveRetrieval.scored_with. split.
  - destruct (is_zero weight) eqn:Ez; [intros []|].
    destruct (indices V r !! s) as [index|] eqn:Ei; [|intros []].
    destruct (Z.eqb_spec (Z.of_nat (List.length index)) 0) as [|Hne]; [intros []|].
    intros H. apply in_flat_map in H as [[sc idx] [Hhit H]].
    destruct (Z.ltb_spec idx 0); [destruct H|].
    destruct (Z.leb_spec (Z.of_nat (List.length (default [] (metadata V r !! s)))) idx);
      [destruct H|].
    cbn [orb] in H.
    destruct (nth_error _ _) as [seg|] eqn:En; [|destruct H].
    destruct H as [<- | []].
    cbn [scale score segment graph_boost context_boost].
    split; [reflexivity|]. split; [reflexivity|].
    exists index, sc, idx. rewrite Ei. repeat split; auto.
    intros ->. cbn in Hne. lia.
  - intros [<- [Ez [index [sc [idx [Ei [Hne [Hhit [Hidx [En [Eg [Ec Es]]]]]]]]]]]].
    rewrite Ez, Ei.
    destruct (Z.eqb_spec (Z.of_nat (List.length index)) 0) as [E0|_].
    { destruct index; [contradiction | cbn in E0; lia]. }
    apply in_flat_map. exists (sc, idx). split; [exact Hhit|].
    assert (Hlt : (Z.to_nat idx < List.length (default [] (metadata V r !! scale x)))%nat).
    { apply List.nth_error_Some. rewrite En. discriminate. }
    destruct (Z.ltb_spec idx 0); [lia|].
    destruct (Z.leb_spec
                (Z.of_nat (List.length (default [] (metadata V r !! scale x)))) idx);
      [lia|].
    cbn [orb]. rewrite En. left.
    destruct x as [xs xsc xseg xg xc].
    cbn [scale score segment graph_boost context_boost] in *.
    subst xg xc xsc. reflexivity.
Qed.

(** What a retrieval returns are candidates under the effective weights. *)
Lemma fractal_retrieve_candidates (r : t V) (w : world V) (query : string) (k : Z)
      (scale_weights : option (list (string * F))) (policy : option string)
      (x : result) :
  In x (retrieve r w query k scale_weights policy) ->
  candidate (effective_weights scale_weights policy) r w query k x.
Proof.
  unfold fractal_retrieve. intros H.
  apply In_slice, In_sort_desc, in_flat_map in H as [[s weight] [Hw H]].
  apply scale_results_scored in H as [<- H].
  exists weight. split; assumption.
Qed.

(** A retrieval that returns fewer than [k] entries returns every
    candidate under the effective weights. *)
Lemma fractal_retrieve_all_candidates (r : t V) (w : world V) (query : string)
      (k : Z) (scale_weights : option (list (string * F))) (policy : option string)
      (x : result) :
  candidate (effective_weights scale_weights policy) r w query k x ->
  Z.of_nat (List.length (retrieve r w query k scale_weights policy)) < k ->
  In x (retrieve r w query k scale_weights policy).
Proof.
  unfold fractal_retrieve. intros [weight [Hw Hx]] Hlen.
  assert (Hk : 0 <= k) by lia.
  assert (E : forall l : list (result (F := F)), Py.slice l 0 k = firstn (Z.to_nat k) l).
  { intros l. rewrite <- slice_firstn. now rewrite Z2Nat.id. }
  rewrite E in Hlen |- *.
  rewrite List.length_firstn in Hlen.
  rewrite List.firstn_all2 by lia.
  apply sort_desc_In, in_flat_map. exists (scale x, weight). split; [exact Hw|].
  apply scale_results_scored. split; [reflexivity | exact Hx].
Qed.

(** C5.  With [policy='line-fix'] the effective weights are micro 0.9,
    meso 0.1, macro 0.0 whatever weights are passed (none included), and
    the retrieval uses them, for every [k]: the call returns what it
    returns with exactly these weights and no policy; every entry it
    returns is made from a hit of the search of its scale and scored with
    the line-fix weight of that scale; when it returns fewer than [k]
    entries it returns every such entry; and it returns no macro entry
    when the float 0.0 tests equal to 0.  Without policy and without
    weights the same holds with micro 1.0, meso 0.6, macro 0.3. *)
Theorem line_fix_overrides_weights
        (r : t V) (w : world V) (query : string) (k : Z)
        (scale_weights : option (list (string * F))) :
  effective_weights scale_weights (Some "line-fix")
  = [("micro", lit (9 # 10)); ("meso", lit (1 # 10)); ("macro", lit 0)]
  /\ retrieve r w query k scale_weights (Some "line-fix")
     = retrieve r w query k
         (Some [("micro", lit (9 # 10)); ("meso", lit (1 # 10)); ("macro", lit 0)])
         None
  /\ effective_weights (F := F) None None
     = [("micro", lit 1); ("meso", lit (6 # 10)); ("macro", lit (3 # 10))]
  /\ (forall x,
        In x (retrieve r w query k scale_weights (Some "line-fix")) ->
        candidate [("micro", lit (9 # 10)); ("meso", lit (1 # 10)); ("macro", lit 0)]
                  r w query k x)
  /\ (forall x,
        candidate [("micro", lit (9 # 10)); ("meso", lit (1 # 10)); ("macro", lit 0)]
                  r w query k x ->
        Z.of_nat (List.length (retrieve r w query k scale_weights (Some "line-fix")))
        < k ->
        In x (retrieve r w query k scale_weights (Some "line-fix")))
  /\ (is_zero (lit 0) = true ->
      forall x,
        In x (retrieve r w query k scale_weights (Some "line-fix")) ->
        scale x <> "macro")
  /\ (forall x,
        In x (retrieve r w query k None None) ->
        candidate [("micro", lit 1); ("meso", lit (6 # 10)); ("macro", lit (3 # 10))]
                  r w query k x)
  /\ (forall x,
        candidate [("micro", lit 1); ("meso", lit (6 # 10)); ("macro", lit (3 # 10))]
                  r w query k x ->
        Z.of_nat (List.length (retrieve r w query k None None)) < k ->
        In x (retrieve r w query k None None)).
Proof.
  split; [reflexivity|]. split; [reflexivity|]. split; [reflexivity|].
  split; [|split; [|split; [|split]]].
  - intros x H.
    exact (fractal_retrieve_candidates r w query k scale_weights (Some "line-fix") x H).
  - intros x H Hlen.
    exact (fractal_retrieve_all_candidates
             r w query k scale_weights (Some "line-fix") x H Hlen).
  - intros Hz x H Hm.
    destruct (fractal_retrieve_candidates
                r w query k scale_weights (Some "line-fix") x H)
      as [weight [Hw [Hnz _]]].
    change (effective_weights scale_weights (Some "line-fix"))
      with [("micro", lit (9 # 10)); ("meso", lit (1 # 10)); ("macro", lit 0)] in Hw.
    rewrite Hm in Hw.
    destruct Hw as [E | [E | [E | []]]]; try discriminate E.
    injection E as <-. congruence.
  - intros x H.
    exact (fractal_retrieve_candidates r w query k None None x H).
  - intros x H Hlen.
    exact (fractal_retrieve_all_candidates r w query k None None x H Hlen).
Qed.

Lemma scale_results_indexed (r : t V) (w : world V) (query : string) (q_emb : V)
      (k : Z) (s : string) (weight : F) (x : result) :
  In x (scale_results V nlp search r w query q_emb k s weight) ->
  scale x = s /\ is_Some (indices V r !! s).
Proof.
  unfold scale_results.
  destruct (is_zero weight); [intros []|].
  destruct (indices V r !! s) as [index|] eqn:E; [|intros []].
  destruct (Z.of_nat (List.length index) =? 0); [intros []|].
  intros H. apply in_flat_map in H as [[sc idx] [_ H]].
  destruct (_ || _)%bool; [destruct H|].
  destruct (nth_error _ _); [|destruct H].
  destruct H as [<- | []]. split; [reflexivity | eauto].
Qed.

(** Every result carries a scale that [self.indices] holds. *)
Lemma fractal_retrieve_indexed (r : t V) (w : world V) (query : string) (k : Z)
      (scale_weights : option (list (string * F))) (policy : option string)
      (x : result) :
  In x (retrieve r w query k scale_weights policy) ->
  is_Some (indices V r !! scale x).
Proof.
  unfold fractal_retrieve. intros H.
  apply In_slice, In_sort_desc, in_flat_map in H as [[s weight] [_ H]].
  apply scale_results_indexed in H as [-> H]. exact H.
Qed.

(** [index_segments] adds no key to [self.indices] but its scale. *)
Lemma index_segments_indices (r : t V) (w : world V)
      (segments : list AnySegment.t) (s s' : string) :
  is_Some (indices V (fst (fst (index_segs r w segments s))) !! s') ->
  s' = s \/ is_Some (indices V r !! s').
Proof.
  unfold index_segments.
  destruct (match indices V r !! s with
            | Some ix => Py.Ok ix
            | None => load_or_create_index V w s
            end) as [index0|e]; [|cbn; auto].
  destruct (index_paths !! s); cbn [fst indices];
    (destruct (decide (s = s')) as [->|Hne];
     [auto | rewrite lookup_insert_ne by exact Hne; auto]).
Qed.

Lemma run_index_indices (calls : list (list AnySegment.t * string))
      (r : t V) (w : world V) (s : string) :
  is_Some (indices V (fst (run r w calls)) !! s) ->
  In s (List.map snd calls) \/ is_Some (indices V r !! s).
Proof.
  unfold run_index. revert r w.
  induction calls as [|[segments s'] calls IH]; intros r w; cbn [List.fold_left].
  - cbn. auto.
  - intros H. cbn [fst snd] in H.
    destruct (index_segs r w segments s') as [[r' w'] o] eqn:E.
    cbn [fst snd] in H.
    destruct (IH _ _ H) as [H'|H']; [cbn; auto|].
    pose proof (index_segments_indices r w segments s' s) as Hi.
    rewrite E in Hi. destruct (Hi H') as [->|]; cbn; auto.
Qed.

(** C9.  On a new instance [fractal_retrieve] returns the empty list,
    whatever index files the disk holds; and after any sequence of
    [index_segments] calls on a new instance, every result has a scale for
    which [index_segments] was called.  Retrieval never reads an index
    file. *)
Theorem fractal_retrieve_only_indexed_scales
        (w : world V) (query : string) (k : Z)
        (scale_weights : option (list (string * F))) (policy : option string) :
  retrieve (new V) w query k scale_weights policy = []
  /\ forall (calls : list (list AnySegment.t * string)) (x : result),
      In x (retrieve (fst (run (new V) w calls)) (snd (run (new V) w calls))
                     query k scale_weights policy) ->
      In (scale x) (List.map snd calls).
Proof.
  assert (H : forall calls x,
             In x (retrieve (fst (run (new V) w calls)) (snd (run (new V) w calls))
                            query k scale_weights policy) ->
             In (scale x) (List.map snd calls)).
  { intros calls x Hx.
    apply fractal_retrieve_indexed, run_index_indices in Hx as [Hx|Hx].
    - exact Hx.
    - cbn in Hx. rewrite lookup_empty in Hx. destruct Hx as [? Hx]. discriminate. }
  split; [|exact H].
  destruct (retrieve (new V) w query k scale_weights policy) as [|x l] eqn:E;
    [reflexivity|].
  exfalso. apply (H [] x). cbn [run_index List.fold_left fst snd].
  rewrite E. now left.
Qed.

(** *** Index and metadata lengths *)

Lemma length_assign_ids (start_id : Z) (segments : list AnySegment.t) :
  List.length (assign_ids start_id segments) = List.length segments.
Proof.
  revert start_id. induction segments as [|s l IH]; intros start_id; cbn; auto.
Qed.

(** When the scale is already in [self.indices], a call appends as many
    vectors as metadata records. *)
Lemma index_segments_appends (r : t V) (w : world V)
      (segments : list AnySegment.t) (s : string) (index : list V) :
  indices V r !! s = Some index ->
  option_map (@List.length V)
             (indices V (fst (fst (index_segs r w segments s))) !! s)
  = Some (List.length index + List.length segments)%nat
  /\ option_map (@List.length AnySegment.t)
                (metadata V (fst (fst (index_segs r w segments s))) !! s)
     = Some (List.length (default [] (metadata V r !! s))
             + List.length segments)%nat.
Proof.
  intros E. unfold index_segments. rewrite E.
  destruct (index_paths !! s); cbn [fst indices metadata];
    rewrite !lookup_insert_eq; cbn [option_map];
    rewrite !List.length_app, List.length_map, List.length_map, length_assign_ids;
    auto.
Qed.

(** Without an index file, the first call on a new instance leaves as many
    vectors as metadata records. *)
Lemma index_segments_without_file (w : world V) (segments : list AnySegment.t)
      (s index_path : string) :
  index_paths !! s = Some index_path ->
  index_files V w !! index_path = None ->
  option_map (@List.length V)
             (indices V (fst (fst (index_segs (new V) w segments s))) !! s)
  = Some (List.length segments)
  /\ option_map (@List.length AnySegment.t)
                (metadata V (fst (fst (index_segs (new V) w segments s))) !! s)
     = Some (List.length segments).
Proof.
  intros Hp Hf. unfold index_segments, load_or_create_index.
  cbn [new indices metadata]. rewrite lookup_empty, Hp, Hf.
  cbn [fst indices metadata]. rewrite !lookup_insert_eq, lookup_empty.
  cbn [option_map default List.app].
  rewrite !List.length_map, length_assign_ids.
  auto.
Qed.

(** C3, what the code does when the index is read from disk.  On a new
    instance, the first [index_segments] call for a scale whose index file
    holds [n] vectors leaves [n + len(segments)] vectors in the index and
    [len(segments)] metadata records: the metadata file is never read back,
    and the two lengths differ as soon as [n > 0]. *)
Theorem index_segments_after_load (w : world V) (segments : list AnySegment.t)
        (s index_path : string) (persisted : list V) :
  index_paths !! s = Some index_path ->
  index_files V w !! index_path = Some persisted ->
  option_map (@List.length V)
             (indices V (fst (fst (index_segs (new V) w segments s))) !! s)
  = Some (List.length persisted + List.length segments)%nat
  /\ option_map (@List.length AnySegment.t)
                (metadata V (fst (fst (index_segs (new V) w segments s))) !! s)
     = Some (List.length segments).
Proof.
  intros Hp Hf. unfold index_segments, load_or_create_index.
  cbn [new indices metadata]. rewrite lookup_empty, Hp, Hf.
  cbn [fst indices metadata]. rewrite !lookup_insert_eq, lookup_empty.
  cbn [option_map default List.app].
  rewrite List.length_app, !List.length_map, length_assign_ids.
  auto.
Qed.

End RetrieverFacts.

Section RetrieverExamples.

Import FractalRetriever.

(** With one micro and one meso segment indexed, a line-fix retrieval that
    is also passed the weights micro 5.0 returns the micro entry with
    score 0.9 and the meso entry with score 0.1. *)
Lemma line_fix_overrides_weights_witness :
  exists x y,
    fractal_retrieve nat Samples.no_entities Samples.embed_one Samples.search_first
      (fst WitnessInputs.two_scales) (snd WitnessInputs.two_scales)
      "q" 10 (Some [("micro", 5%Q)]) (Some "line-fix")
    = [x; y]
    /\ scale x = "micro" /\ (score x == 9 # 10)%Q
    /\ scale y = "meso" /\ (score y == 1 # 10)%Q
    /\ ObserveRetrieval.candidate
         nat Samples.no_entities Samples.embed_one Samples.search_first
         [("micro", lit (9 # 10)); ("meso", lit (1 # 10)); ("macro", lit 0)]
         (fst WitnessInputs.two_scales) (snd WitnessInputs.two_scales) "q" 10 x.
Proof.
  assert (H : exists x y,
             fractal_retrieve nat Samples.no_entities Samples.embed_one
               Samples.search_first
               (fst WitnessInputs.two_scales) (snd WitnessInputs.two_scales)
               "q" 10 (Some [("micro", 5%Q)]) (Some "line-fix")
             = [x; y]
             /\ scale x = "micro" /\ (score x == 9 # 10)%Q
             /\ scale y = "meso" /\ (score y == 1 # 10)%Q).
  { vm_compute. eexists. eexists. repeat split; reflexivity. }
  destruct H as [x [y [E [H1 [H2 [H3 H4]]]]]]. exists x, y.
  repeat (split; [assumption|]).
  apply (line_fix_overrides_weights
           nat Samples.no_entities Samples.embed_one Samples.search_first
           (fst WitnessInputs.two_scales) (snd WitnessInputs.two_scales)
           "q" 10 (Some [("micro", 5%Q)])).
  rewrite E. now left.
Defined.

(** One vector on disk, one segment indexed: two vectors, one record. *)
Lemma index_segments_after_load_witness :
  option_map (@List.length nat)
             (indices nat (fst Samples.after_load) !! "micro") = Some 2%nat
  /\ option_map (@List.length AnySegment.t)
                (metadata nat (fst Samples.after_load) !! "micro") = Some 1%nat.
Proof.
  apply (index_segments_after_load nat Samples.no_entities Samples.dumps_empty
           Samples.embed_one Samples.one_persisted Samples.one_micro
           "micro" MICRO_INDEX_PATH [7%nat]);
    vm_compute; reflexivity.
Defined.

(** After one [index_segments] call for the micro scale, a retrieval has a
    result, and it is of that scale. *)
Lemma fractal_retrieve_only_indexed_scales_witness :
  exists x,
    In x (fractal_retrieve nat Samples.no_entities Samples.embed_one
                           Samples.search_first
                           (fst Samples.after_load) (snd Samples.after_load)
                           "q" 10 None None)
    /\ In (scale x) ["micro"].
Proof.
  assert (H : exists x,
             In x (fractal_retrieve nat Samples.no_entities Samples.embed_one
                                    Samples.search_first
                                    (fst Samples.after_load) (snd Samples.after_load)
                                    "q" 10 None None)).
  { vm_compute. eexists. left. reflexivity. }
  destruct H as [x Hx]. exists x. split; [exact Hx|].
  exact (proj2 (fractal_retrieve_only_indexed_scales
                  nat Samples.no_entities Samples.dumps_empty Samples.embed_one
                  Samples.search_first Samples.one_persisted "q" 10 None None)
               [(Samples.one_micro, "micro")] x Hx).
Defined.

End RetrieverExamples.

(** * Further properties *)

(** ** Scene boundaries *)

Section BreakFacts.

Import MultiScaleSegmenter.

Lemma In_insert_set (x y : Z) (l : list Z) :
  In y (Py.insert_set x l) <-> y = x \/ In y l.
Proof.
  induction l as [|z l IH]; cbn.
  - intuition.
  - destruct (Z.ltb_spec x z); [cbn; intuition|].
    destruct (Z.eqb_spec x z); [subst; cbn; intuition|].
    cbn. rewrite IH. intuition.
Qed.

Lemma In_sorted_set (y : Z) (l : list Z) : In y (Py.sorted_set l) <-> In y l.
Proof.
  unfold Py.sorted_set. induction l as [|x l IH]; cbn; [reflexivity|].
  rewrite In_insert_set, IH. intuition.
Qed.

Lemma insert_set_sorted (x : Z) (l : list Z) :
  StronglySorted Z.lt l -> StronglySorted Z.lt (Py.insert_set x l).
Proof.
  induction 1 as [|z l Hs IH Hall]; cbn.
  - repeat constructor.
  - destruct (Z.ltb_spec x z) as [Hlt|Hge].
    + constructor; [constructor; assumption|].
      constructor; [assumption|].
      apply List.Forall_forall. intros a Ha.
      rewrite List.Forall_forall in Hall. specialize (Hall a Ha). lia.
    + destruct (Z.eqb_spec x z) as [->|Hne]; [constructor; assumption|].
      constructor; [exact IH|].
      apply List.Forall_forall. intros a Ha. apply In_insert_set in Ha as [->|Ha].
      * lia.
      * rewrite List.Forall_forall in Hall. now apply Hall.
Qed.

Lemma sorted_set_sorted (l : list Z) : StronglySorted Z.lt (Py.sorted_set l).
Proof.
  unfold Py.sorted_set. induction l as [|x l IH]; cbn; [constructor|].
  now apply insert_set_sorted.
Qed.

Lemma In_location_breaks (nlp_ents : list Ent.t) (last : option string) (b : Z) :
  In b (location_breaks last nlp_ents) ->
  exists e, In e nlp_ents /\ Ent.start_char e = b.
Proof.
  revert last. induction nlp_ents as [|e r IH]; intros last; cbn; [intros []|].
  destruct (is_location e).
  - destruct last as [l|].
    + destruct (_ && _)%bool.
      * intros [<- | H]; [eauto|]. destruct (IH _ H) as [e' [? ?]]; eauto.
      * intros H. destruct (IH _ H) as [e' [? ?]]; eauto.
    + intros H. destruct (IH _ H) as [e' [? ?]]; eauto.
  - intros H. destruct (IH _ H) as [e' [? ?]]; eauto.
Qed.

(** X1.  When the recogniser reports no negative offset,
    [detect_scene_breaks] returns a strictly ascending list that starts
    with 0: no offset is repeated and none is negative. *)
Theorem detect_scene_breaks_ascending (nlp : string -> list Ent.t) (text : string) :
  (forall s e, In e (nlp s) -> 0 <= Ent.start_char e) ->
  exists rest,
    detect_scene_breaks nlp text = 0 :: rest
    /\ StronglySorted Z.lt (0 :: rest).
Proof.
  intros Hpos.
  assert (Hs : StronglySorted Z.lt (detect_scene_breaks nlp text))
    by (unfold detect_scene_breaks; apply sorted_set_sorted).
  assert (H0 : In 0 (detect_scene_breaks nlp text)).
  { unfold detect_scene_breaks. apply In_sorted_set. now left. }
  assert (Hnn : forall b, In b (detect_scene_breaks nlp text) -> 0 <= b).
  { intros b Hb. unfold detect_scene_breaks in Hb.
    apply (proj1 (In_sorted_set _ _)) in Hb.
    apply in_app_or in Hb as [[<- | []] | Hb]; [lia|].
    apply in_app_or in Hb as [Hb|Hb].
    - apply in_flat_map in Hb as [p [_ Hb]].
      apply in_map_iff in Hb as [m [<- _]]. lia.
    - apply In_location_breaks in Hb as [e [He <-]]. eapply Hpos, He. }
  destruct (detect_scene_breaks nlp text) as [|b rest]; [destruct H0|].
  assert (b = 0).
  { destruct H0 as [E|H0]; [exact E|].
    inversion Hs as [|? ? _ Hall]; subst.
    rewrite List.Forall_forall in Hall. specialize (Hall 0 H0).
    specialize (Hnn b (or_introl eq_refl)). lia. }
  subst b. exists rest. split; [reflexivity | exact Hs].
Qed.

Lemma detect_scene_breaks_ascending_witness :
  exists rest,
    detect_scene_breaks Samples.no_entities Samples.two_scenes = 0 :: rest
    /\ StronglySorted Z.lt (0 :: rest).
Proof.
  apply (detect_scene_breaks_ascending Samples.no_entities Samples.two_scenes).
  intros s e [].
Defined.

End BreakFacts.

(** ** Meso and macro segments *)

Section MesoFacts.

Import MultiScaleSegmenter.

Lemma In_natural_scenes (text chapter : string) (micro_segments : list MicroSegment.t)
      (scene_breaks : list Z) (s : MesoSegment.t) :
  In s (natural_scenes text chapter micro_segments scene_breaks) ->
  exists i,
    (i + 1 < List.length scene_breaks)%nat
    /\ MesoSegment.id s = "meso_" ++ chapter ++ "_" ++ pretty i
    /\ MesoSegment.chapter s = chapter
    /\ MesoSegment.start_char s = nth i scene_breaks 0
    /\ MesoSegment.end_char s = nth (i + 1) scene_breaks 0
    /\ MesoSegment.micro_ids s
       = micro_ids_in micro_segments (MesoSegment.start_char s) (MesoSegment.end_char s)
    /\ MesoSegment.micro_ids s <> [].
Proof.
  unfold natural_scenes. intros H.
  apply in_flat_map in H as [i [Hi H]].
  apply in_seq in Hi. exists i.
  assert (Hlt : (i + 1 < List.length scene_breaks)%nat) by lia.
  unfold scene_window in H.
  destruct (Nat.ltb_spec (i + 1) (List.length scene_breaks)); [|lia].
  destruct (micro_ids_in micro_segments (nth i scene_breaks 0)
                         (nth (i + 1) scene_breaks 0)) as [|m ms] eqn:E;
    [destruct H|].
  destruct H as [<- | []]. cbn. rewrite E. repeat split; auto; discriminate.
Qed.


Lemma length_flat_map_le {A B} (f : A -> list B) (l : list A) :
  (forall x, List.length (f x) <= 1)%nat ->
  (List.length (List.flat_map f l) <= List.length l)%nat.
Proof.
  intros Hf. induction l as [|x l IH]; cbn [List.flat_map List.length]; [lia|].
  rewrite List.length_app. specialize (Hf x). lia.
Qed.


(** X3.  When [detect_scene_breaks] finds at least two offsets, the call
    does not raise and returns fewer segments than offsets; the segment
    numbered [i] spans from the offset of rank [i] to the offset of rank
    [i + 1], so every segment ends at a detected offset. *)
Theorem create_meso_segments_windows
        (nlp : string -> list Ent.t) (self : t) (text chapter : string)
        (micro_segments : list MicroSegment.t) :
  (1 < List.length (detect_scene_breaks nlp text))%nat ->
  exists segs,
    create_meso_segments nlp self text chapter micro_segments = Py.Ok segs
    /\ (List.length segs < List.length (detect_scene_breaks nlp text))%nat
    /\ forall s, In s segs ->
         exists i,
           (i + 1 < List.length (detect_scene_breaks nlp text))%nat
           /\ MesoSegment.id s = "meso_" ++ chapter ++ "_" ++ pretty i
           /\ MesoSegment.start_char s = nth i (detect_scene_breaks nlp text) 0
           /\ MesoSegment.end_char s = nth (i + 1) (detect_scene_breaks nlp text) 0.
Proof.
  intros Hlen. unfold create_meso_segments.
  destruct (Nat.ltb_spec 1 (List.length (detect_scene_breaks nlp text))); [|lia].
  eexists. split; [reflexivity|]. split.
  - unfold natural_scenes.
    match goal with
    | |- (List.length (List.flat_map ?f ?l) < _)%nat =>
        pose proof (length_flat_map_le f l) as Hle
    end.
    rewrite List.length_seq in Hle.
    enough (List.length
              (List.flat_map
                 (fun i =>
                    let '(start, end_) :=
                      scene_window text (detect_scene_breaks nlp text) i in
                    match micro_ids_in micro_segments start end_ with
                    | [] => []
                    | ids =>
                        [ {| MesoSegment.id := "meso_" ++ chapter ++ "_" ++ pretty i;
                             MesoSegment.chapter := chapter;
                             MesoSegment.start_char := start;
                             MesoSegment.end_char := end_;
                             MesoSegment.text := Py.str_slice text start end_;
                             MesoSegment.micro_ids := ids;
                             MesoSegment.scene_type :=
                               Some (classify_scene_type (Py.str_slice text start end_));
                             MesoSegment.embedding_id := None |} ]
                    end)
                 (seq 0 (List.length (detect_scene_breaks nlp text) - 1)))
            <= List.length (detect_scene_breaks nlp text) - 1)%nat by lia.
    apply Hle. intros i. destruct (scene_window _ _ _) as [a b].
    destruct (micro_ids_in _ _ _); cbn; lia.
  - intros s Hs. apply In_natural_scenes in Hs as [i Hi]. exists i. tauto.
Qed.


Lemma create_meso_segments_windows_witness :
  exists segs,
    create_meso_segments Samples.no_entities default Samples.two_scenes "ch1"
                         Samples.two_scenes_micro = Py.Ok segs
    /\ (List.length segs
        < List.length (detect_scene_breaks Samples.no_entities Samples.two_scenes))%nat
    /\ forall s, In s segs ->
         exists i,
           (i + 1 < List.length
                      (detect_scene_breaks Samples.no_entities Samples.two_scenes))%nat
           /\ MesoSegment.id s = "meso_" ++ "ch1" ++ "_" ++ pretty i
           /\ MesoSegment.start_char s
              = nth i (detect_scene_breaks Samples.no_entities Samples.two_scenes) 0
           /\ MesoSegment.end_char s
              = nth (i + 1)
                    (detect_scene_breaks Samples.no_entities Samples.two_scenes) 0.
Proof.
  apply (create_meso_segments_windows
           Samples.no_entities default Samples.two_scenes "ch1"
           Samples.two_scenes_micro).
  vm_compute. lia.
Defined.

(** *** Sliding windows *)

(** X4.  [create_sliding_windows] raises [ValueError] exactly when the upper
    window size equals the overlap (the step of the [range] is then 0); for
    every other configuration, the default one included, it returns a
    list. *)
Theorem create_sliding_windows_raises (self : t) (text chapter : string)
        (micro_segments : list MicroSegment.t) :
  (snd (meso_window self) = overlap self ->
   create_sliding_windows self text chapter micro_segments
   = Py.Raise Py.ValueError)
  /\ (snd (meso_window self) <> overlap self ->
      exists segs,
        create_sliding_windows self text chapter micro_segments = Py.Ok segs)
  /\ exists segs,
      create_sliding_windows default text chapter micro_segments = Py.Ok segs.
Proof.
  assert (H : forall self', snd (meso_window self') <> overlap self' ->
             exists segs,
               create_sliding_windows self' text chapter micro_segments = Py.Ok segs).
  { intros self' Hne. unfold create_sliding_windows, Py.range_step.
    destruct (Z.eqb_spec (snd (meso_window self') - overlap self') 0); [lia|].
    destruct (_ <? 0); cbn [mbind res_bind Py.bind mret res_ret]; eauto. }
  repeat split.
  - intros E. unfold create_sliding_windows, Py.range_step.
    rewrite E, Z.sub_diag. reflexivity.
  - apply H.
  - apply H. cbn. lia.
Qed.

Lemma create_sliding_windows_raises_witness :
  create_sliding_windows {| meso_window := (200, 800); overlap := 800 |}
                         "a b c" "ch1" []
  = Py.Raise Py.ValueError.
Proof.
  apply (proj1 (create_sliding_windows_raises
                  {| meso_window := (200, 800); overlap := 800 |} "a b c" "ch1" [])).
  reflexivity.
Defined.

End MesoFacts.

(** ** Scene types and previews *)

Section ClassifyFacts.

Import MultiScaleSegmenter.

(** The matches of a one-character class are the characters of the class. *)
Lemma scan_class (cls : ascii -> bool) (l : list ascii) (prev : option ascii)
      (pos : nat) :
  List.length (Text.scan [Text.Chr cls] prev pos 0 l)
  = List.length (List.filter cls l).
Proof.
  revert prev pos. induction l as [|c l IH]; intros prev pos; [reflexivity|].
  cbn [Text.scan Text.match_here List.filter].
  destruct (cls c); cbn [option_map Nat.pred List.length]; rewrite IH; reflexivity.
Qed.

Lemma quotes_counted (text : string) :
  Text.count_matches quote_re text
  = Z.of_nat (List.length (List.filter ObserveText.is_quote (Py.chars text))).
Proof.
  unfold Text.count_matches, Text.finditer, quote_re.
  now rewrite scan_class.
Qed.

(** X5.  A text is classified as dialogue exactly when more than one
    character in twenty is a double or single quote; the empty text counts
    as one character long and is never dialogue. *)
Theorem classify_scene_type_dialogue (text : string) :
  classify_scene_type text = "dialogue"
  <-> Z.max (Py.len text) 1
      < 20 * Z.of_nat (List.length (List.filter ObserveText.is_quote (Py.chars text))).
Proof.
  rewrite <- quotes_counted.
  assert (Hq : (5 # 100 < dialogue_ratio text)%Q
               <-> Z.max (Py.len text) 1 < 20 * Text.count_matches quote_re text).
  { unfold dialogue_ratio, Qlt. cbn [Qnum Qden].
    rewrite Z2Pos.id by lia. lia. }
  rewrite <- Hq. unfold classify_scene_type.
  destruct (Qgtb (dialogue_ratio text) (5 # 100)) eqn:E.
  - apply Qgtb_true in E. tauto.
  - apply Qgtb_false in E. split; [|tauto].
    destruct (5 <? action_words text); [discriminate|].
    destruct (Py.len text <? 500); discriminate.
Qed.

End ClassifyFacts.

Section PreviewFacts.

Import MultiScaleSegmenter.

Lemma length_str (l : list ascii) : String.length (Py.str l) = List.length l.
Proof. induction l as [|c l IH]; cbn; auto. Qed.

Lemma length_chars (s : string) : List.length (Py.chars s) = String.length s.
Proof. induction s as [|c s IH]; cbn; auto. Qed.

Lemma length_append (a b : string) :
  String.length (a ++ b) = (String.length a + String.length b)%nat.
Proof.
  induction a as [|c a IH]; [reflexivity|].
  change (S (String.length (a ++ b)) = S (String.length a + String.length b)).
  now rewrite IH.
Qed.

Lemma str_upto_firstn (s : string) (n : Z) :
  0 <= n -> Py.str_upto s n = Py.str (firstn (Z.to_nat n) (Py.chars s)).
Proof.
  intros Hn. unfold Py.str_upto, Py.str_slice.
  rewrite <- (Z2Nat.id n) at 1 by exact Hn. now rewrite slice_firstn.
Qed.

(** X6.  The macro segment of a chapter spans the whole text and lists the
    ids of the given meso segments in order; its stored text is the chapter
    text when that has at most 2000 characters, and otherwise the first
    2000 characters followed by three dots, 2003 characters in all. *)
Theorem create_macro_segment_preview (text chapter : string)
        (meso_segments : list MesoSegment.t) :
  MacroSegment.start_char (create_macro_segment text chapter meso_segments) = 0
  /\ MacroSegment.end_char (create_macro_segment text chapter meso_segments)
     = Py.len text
  /\ MacroSegment.meso_ids (create_macro_segment text chapter meso_segments)
     = List.map MesoSegment.id meso_segments
  /\ (Py.len text <= 2000 ->
      MacroSegment.text (create_macro_segment text chapter meso_segments) = text)
  /\ (2000 < Py.len text ->
      MacroSegment.text (create_macro_segment text chapter meso_segments)
      = Py.str (firstn 2000 (Py.chars text)) ++ "..."
      /\ Py.len (MacroSegment.text (create_macro_segment text chapter meso_segments))
         = 2003).
Proof.
  unfold create_macro_segment. cbn [MacroSegment.start_char MacroSegment.end_char
                                    MacroSegment.meso_ids MacroSegment.text].
  repeat split.
  - intros H. destruct (Z.ltb_spec 2000 (Py.len text)); [lia | reflexivity].
  - destruct (Z.ltb_spec 2000 (Py.len text)); [|lia].
    rewrite (str_upto_firstn text 2000) by lia. reflexivity.
  - destruct (Z.ltb_spec 2000 (Py.len text)); [|lia].
    rewrite (str_upto_firstn text 2000) by lia. unfold Py.len in *.
    rewrite length_append, length_str, List.length_firstn, length_chars.
    cbn [String.length]. lia.
Qed.

Lemma create_macro_segment_preview_witness :
  MacroSegment.text (create_macro_segment Samples.two_scenes "ch1" [])
  = Samples.two_scenes.
Proof.
  apply (proj1 (proj2 (proj2 (proj2
           (create_macro_segment_preview Samples.two_scenes "ch1" []))))).
  vm_compute. discriminate.
Defined.

End PreviewFacts.

(** ** Rows that updates keep *)

Section KeptRows.

Context {A B : Type}.
Variable key : A -> string.
Variable bump : A -> A.
Variable proj : A -> B.
Hypothesis proj_bump : forall r, proj (bump r) = proj r.

Lemma proj_upsert (row : A) (rows : list A) :
  List.map proj (Keyed.upsert key bump row rows)
  = (List.map proj rows
       ++ (if Keyed.has key (key row) rows then [] else [proj row]))%list.
Proof.
  unfold Keyed.upsert. destruct (Keyed.has key (key row) rows).
  - rewrite app_nil_r, List.map_map. apply List.map_ext.
    intros r. unfold Keyed.bump_if. destruct (String.eqb _ _); auto.
  - now rewrite List.map_app.
Qed.

(** Upserts keep the projected columns of the rows they find, in place, and
    append rows taken from the new ones. *)
Lemma proj_upserts (news rows : list A) :
  exists extra,
    List.map proj (List.fold_left (fun acc r => Keyed.upsert key bump r acc) news rows)
    = (List.map proj rows ++ extra)%list
    /\ forall x, In x extra -> In x (List.map proj news).
Proof.
  revert rows. induction news as [|n news IH]; intros rows; cbn [List.fold_left].
  - exists []. split; [now rewrite app_nil_r | intros x []].
  - destruct (IH (Keyed.upsert key bump n rows)) as [extra [E Hin]].
    rewrite proj_upsert, <- List.app_assoc in E.
    eexists. split; [exact E|].
    intros x Hx. apply in_app_or in Hx as [Hx|Hx].
    + destruct (Keyed.has key (key n) rows); [destruct Hx|].
      destruct Hx as [<- | []]. now left.
    + right. now apply Hin.
Qed.

End KeptRows.

Section GraphKeeps.

Import NarrativeGraphManager Observe ObserveRows.

Variable nlp : string -> list Ent.t.
Variable dumps : Json.t -> string.
Variable character_aliases : gmap string string.

#[local] Abbreviation extract := (extract_entities nlp character_aliases).
#[local] Abbreviation update := (update_graph nlp dumps character_aliases).

Lemma nodes_update_graph (d : db) (segment : seg) (scale : string) :
  List.map node_identity (nodes (update d segment scale))
  = List.map node_identity
      (List.fold_left
         (fun acc r => Keyed.upsert NodeRow.node_id more_frequent r acc)
         (List.map (node_row dumps) (extract (text segment) (id segment) scale))
         (nodes d)).
Proof.
  unfold update_graph, update_centrality. cbn [nodes].
  rewrite nodes_apply_entities, List.map_map. reflexivity.
Qed.


(** *** Links *)

Lemma has_link_insert (sid nid sid' nid' scale : string) (rows : list LinkRow.t) :
  has_link sid nid rows = true ->
  has_link sid nid (insert_link sid' nid' scale rows) = true.
Proof.
  intros H. unfold insert_link. destruct (has_link sid' nid' rows); [exact H|].
  unfold has_link in *. rewrite existsb_app, H. reflexivity.
Qed.

Lemma has_link_inserted (sid nid scale : string) (rows : list LinkRow.t) :
  has_link sid nid (insert_link sid nid scale rows) = true.
Proof.
  unfold insert_link. destruct (has_link sid nid rows) eqn:E; [exact E|].
  unfold has_link. rewrite existsb_app. cbn.
  rewrite !String.eqb_refl. now rewrite orb_true_r.
Qed.

Lemma links_present (sid scale : string) (es : list GraphNode.t)
      (rows : list LinkRow.t) (nid : string) :
  has_link sid nid rows = true \/ In nid (List.map GraphNode.node_id es) ->
  has_link sid nid
    (List.fold_left
       (fun acc e => insert_link sid (GraphNode.node_id e) scale acc) es rows)
  = true.
Proof.
  revert rows. induction es as [|e es IH]; intros rows; cbn [List.fold_left List.map In].
  - intros [H | []]. exact H.
  - intros [H | [<- | H]]; apply IH.
    + left. now apply has_link_insert.
    + left. apply has_link_inserted.
    + now right.
Qed.

Lemma links_unchanged (sid scale : string) (es : list GraphNode.t)
      (rows : list LinkRow.t) :
  (forall e, In e es -> has_link sid (GraphNode.node_id e) rows = true) ->
  List.fold_left
    (fun acc e => insert_link sid (GraphNode.node_id e) scale acc) es rows
  = rows.
Proof.
  induction es as [|e es IH]; intros H; cbn [List.fold_left]; [reflexivity|].
  unfold insert_link at 2. rewrite (H e (or_introl eq_refl)).
  apply IH. intros e' He'. apply H. now right.
Qed.

Lemma segment_nodes_update_graph (d : db) (segment : seg) (scale : string) :
  segment_nodes (update d segment scale)
  = List.fold_left
      (fun acc e => insert_link (id segment) (GraphNode.node_id e) scale acc)
      (extract (text segment) (id segment) scale) (segment_nodes d).
Proof. reflexivity. Qed.

(** X8.  Links are written once: after [update_graph] every extracted node
    is linked to the segment, and processing the same segment again, under
    any scale, leaves the link table as it is; the scale of the first write
    stays. *)
Theorem update_graph_links_once (d : db) (segment : seg) (scale scale' : string) :
  (forall nid,
      In nid (extracted_ids nlp character_aliases segment scale) ->
      has_link (id segment) nid (segment_nodes (update d segment scale)) = true)
  /\ segment_nodes (update (update d segment scale) segment scale')
     = segment_nodes (update d segment scale).
Proof.
  split.
  - intros nid H. rewrite segment_nodes_update_graph.
    apply links_present. now right.
  - rewrite (segment_nodes_update_graph (update d segment scale)).
    apply links_unchanged. intros e He.
    rewrite segment_nodes_update_graph. apply links_present. right.
    apply in_map_iff. exists e. split; [reflexivity|].
    exact He.
Qed.

End GraphKeeps.

(** ** Continuity on graphs the program builds *)

Section BuiltGraphs.

Import NarrativeGraphManager Observe ObserveRows.

Variable nlp : string -> list Ent.t.
Variable dumps : Json.t -> string.
Variable loads : string -> option Json.t.
Variable character_aliases : gmap string string.

#[local] Abbreviation update := (update_graph nlp dumps character_aliases).
#[local] Abbreviation build := (ingest nlp dumps character_aliases empty).

Lemma well_keyed_update (d : db) (segment : seg) (scale : string) :
  well_keyed d -> well_keyed (update d segment scale).
Proof.
  intros [Hnd Hid]. split.
  - destruct (nodes_update_centrality
                (apply_entities dumps d
                   (extract_entities nlp character_aliases
                      (text segment) (id segment) scale)
                   segment scale)) as [Hk _].
    unfold update_graph. rewrite Hk, nodes_apply_entities.
    apply (NoDup_upserts NodeRow.node_id more_frequent); [reflexivity | exact Hnd].
  - intros r Hr.
    assert (Hi : In (node_identity r)
                    (List.map node_identity (nodes (update d segment scale))))
      by now apply in_map.
    rewrite nodes_update_graph in Hi.
    destruct (proj_upserts NodeRow.node_id more_frequent node_identity
                (fun r => eq_refl)
                (List.map (node_row dumps)
                   (extract_entities nlp character_aliases
                      (text segment) (id segment) scale))
                (nodes d)) as [extra [E Hex]].
    rewrite E in Hi. apply in_app_or in Hi as [Hi|Hi].
    + apply in_map_iff in Hi as [r' [Er Hr']].
      injection Er as E1 E2 E3 _. rewrite <- E1, <- E2, <- E3. now apply Hid.
    + apply Hex, in_map_iff in Hi as [r' [Er Hr']].
      apply in_map_iff in Hr' as [e [<- He]].
      injection Er as E1 E2 E3 _. rewrite <- E1, <- E2, <- E3.
      cbn [node_row NodeRow.node_id NodeRow.node_type NodeRow.canonical_name].
      now apply (extract_entities_node_id nlp character_aliases
                   (text segment) (id segment) scale).
Qed.

Lemma well_keyed_ingest (calls : list (seg * string)) (d : db) :
  well_keyed d -> well_keyed (ingest nlp dumps character_aliases d calls).
Proof.
  revert d. induction calls as [|[segment scale] calls IH]; intros d H; [exact H|].
  unfold ingest. cbn [List.fold_left]. apply IH. now apply well_keyed_update.
Qed.

Lemma well_keyed_empty : well_keyed empty.
Proof. split; [constructor | intros r []]. Qed.

Lemma NoDup_map_eq {X} (f : X -> string) (l : list X) (a b : X) :
  List.NoDup (List.map f l) -> In a l -> In b l -> f a = f b -> a = b.
Proof.
  induction l as [|x l IH]; cbn [List.map In]; [intros _ []|].
  intros Hnd Ha Hb E. apply NoDup_cons_iff in Hnd as [Hx Hnd].
  destruct Ha as [<- | Ha], Hb as [<- | Hb]; auto.
  - exfalso. apply Hx. rewrite E. now apply in_map.
  - exfalso. apply Hx. rewrite <- E. now apply in_map.
Qed.

Lemma In_insert_row {X} (r x : string * X) (l : list (string * X)) :
  In x (insert_row r l) -> x = r \/ In x l.
Proof.
  induction l as [|y l IH]; cbn [insert_row].
  - intros [<- | []]. now left.
  - destruct (String.ltb (fst r) (fst y)).
    + intros [<- | H]; auto.
    + intros [<- | H]; [right; now left|].
      destruct (IH H); auto. right. now right.
Qed.

Lemma In_order_by_segment {X} (x : string * X) (l : list (string * X)) :
  In x (order_by_segment l) -> In x l.
Proof.
  unfold order_by_segment.
  assert (H : forall acc,
             In x (List.fold_left (fun a r => insert_row r a) l acc) ->
             In x l \/ In x acc).
  { induction l as [|y l IH]; intros acc; cbn [List.fold_left]; [auto|].
    intros H. destruct (IH _ H) as [H'|H']; [left; now right|].
    destruct (In_insert_row _ _ _ H') as [->|]; [left; now left | now right]. }
  intros Hx. destruct (H _ Hx) as [|[]]. assumption.
Qed.

(** On a well keyed graph all the rows of a character carry one and the
    same attribute text. *)
Lemma select_character_one_blob (d : db) (character : string) :
  well_keyed d ->
  exists a, forall row, In row (select_character d character) -> snd (snd row) = a.
Proof.
  intros [Hnd Hid].
  destruct (select_character d character) as [|[sid0 [sc0 a0]] rest] eqn:Esel.
  - exists None. intros row [].
  - exists a0. intros [sid [sc a]] Hrow. cbn [snd].
    assert (Hk : forall sid sc a,
               In (sid, (sc, a)) (select_character d character) ->
               exists n, In n (nodes d)
                         /\ NodeRow.canonical_name n = character
                         /\ NodeRow.node_type n = "character"
                         /\ NodeRow.attributes n = a).
    { intros sid' sc' a' H. unfold select_character in H.
      apply In_order_by_segment, in_flat_map in H as [s [_ H]].
      apply in_flat_map in H as [n [Hn H]].
      destruct (String.eqb (LinkRow.node_id s) (NodeRow.node_id n)); [|destruct H].
      destruct (String.eqb_spec (NodeRow.canonical_name n) character);
        [|destruct H].
      destruct (String.eqb_spec (NodeRow.node_type n) "character"); [|destruct H].
      destruct H as [E | []]. injection E as _ _ <-. eauto. }
    destruct (Hk sid sc a) as [n [Hn [Hc [Ht Ha]]]]; [rewrite Esel; exact Hrow|].
    destruct (Hk sid0 sc0 a0) as [n0 [Hn0 [Hc0 [Ht0 Ha0]]]];
      [rewrite Esel; now left|].
    assert (n = n0).
    { apply (NoDup_map_eq NodeRow.node_id (nodes d)); auto.
      rewrite (Hid n Hn), (Hid n0 Hn0). congruence. }
    congruence.
Qed.

Lemma not_dead_and_alive (x : option Json.t) :
  Json.eq_str x "dead" = true -> Json.eq_str x "alive" = true -> False.
Proof.
  destruct x as [[| | | |s| |]|]; cbn; try discriminate.
  intros H1 H2. apply String.eqb_eq in H1, H2. congruence.
Qed.

Lemma scan_rows_one_blob (character : string) (a : option string)
      (rows : list (string * (string * option string)))
      (prev : option Json.t) (vs : list Violation.t) :
  (forall row, In row rows -> snd (snd row) = a) ->
  (forall p, prev = Some p -> decode loads a = Py.Ok p) ->
  scan_rows loads character prev rows = Py.Ok vs ->
  vs = [].
Proof.
  revert prev vs. induction rows as [|[sid [sc a']] rows IH]; intros prev vs Hall Hprev.
  - cbn. congruence.
  - assert (a' = a) by (apply (Hall (sid, (sc, a'))); now left). subst a'.
    cbn [scan_rows]. fold (decode loads a).
    destruct (decode loads a) as [curr|e] eqn:Ed; cbn [mbind res_bind Py.bind];
      [|discriminate].
    assert (Hflag :
             forall b,
               match prev with
               | Some p =>
                   if Json.truthy p then
                     Py.bind (Json.get p "status")
                       (fun ps =>
                          if Json.eq_str ps "dead"
                          then Py.bind (Json.get curr "status")
                                 (fun cs => Py.Ok (Json.eq_str cs "alive"))
                          else Py.Ok false)
                   else Py.Ok false
               | None => Py.Ok false
               end = Py.Ok b -> b = false).
    { intros b. destruct prev as [p|]; [|congruence].
      specialize (Hprev p eq_refl). injection Hprev as ->.
      destruct (Json.truthy p); [|congruence].
      destruct (Json.get p "status") as [ps|e]; cbn [Py.bind]; [|discriminate].
      destruct (Json.eq_str ps "dead") eqn:E1; [|congruence].
      cbn [Py.bind]. intros E. injection E as <-.
      destruct (Json.eq_str ps "alive") eqn:E2; [|reflexivity].
      exfalso. exact (not_dead_and_alive _ E1 E2). }
    unfold mbind, res_bind.
    match goal with
    | |- Py.bind ?m _ = _ -> _ => destruct m as [flagged|e] eqn:Ef
    end; cbn [Py.bind]; [|discriminate].
    rewrite (Hflag flagged eq_refl).
    destruct (scan_rows loads character (Some curr) rows) as [more|e] eqn:Em;
      cbn [Py.bind]; [|discriminate].
    intros E. injection E as <-.
    apply (IH (Some curr) more).
    + intros row Hrow. apply Hall. now right.
    + intros p Hp. injection Hp as <-. reflexivity.
    + exact Em.
Qed.

(** X9.  On a graph that the program has built from the empty one by
    [update_graph] calls, [find_continuity_violations] reports nothing: for
    every character, whenever it returns it returns the empty list.  All the
    rows of a character carry the attributes of one node, so no row can be
    dead where the next is alive. *)
Theorem find_continuity_violations_on_built_graph
        (calls : list (seg * string)) (character : string)
        (vs : list Violation.t) :
  find_continuity_violations loads (build calls) character = Py.Ok vs ->
  vs = [].
Proof.
  unfold find_continuity_violations. intros H.
  destruct (select_character_one_blob (build calls) character) as [a Ha].
  - apply well_keyed_ingest, well_keyed_empty.
  - apply (scan_rows_one_blob character a _ None vs Ha); [discriminate | exact H].
Qed.

End BuiltGraphs.

(** ** What queries return *)

Section QueryFacts.

Import NarrativeGraphManager ObserveRows.

Lemma In_group_append {X} (key : string) (v : X) (g : list (string * list X))
      (k : string) (vs : list X) (x : X) :
  In (k, vs) (group_append key v g) -> In x vs ->
  (k = key /\ x = v) \/ exists vs', In (k, vs') g /\ In x vs'.
Proof.
  induction g as [|[k' vs'] g IH]; cbn [group_append].
  - intros [E | []] Hx. injection E as <- <-. destruct Hx as [<- | []]. now left.
  - destruct (String.eqb_spec k' key) as [->|Hne].
    + intros [E | H] Hx.
      * injection E as <- <-. apply in_app_or in Hx as [Hx | [<- | []]].
        -- right. exists vs'. split; [now left | exact Hx].
        -- now left.
      * right. exists vs. split; [now right | exact Hx].
    + intros [E | H] Hx.
      * injection E as <- <-. right. exists vs'. split; [now left | exact Hx].
      * destruct (IH H Hx) as [?|[vs'' [? ?]]]; [now left|].
        right. exists vs''. split; [now right | assumption].
Qed.

Lemma In_query_groups (l : list (string * string * string * string))
      (k : string) (vs : list Match.entry) (x : Match.entry) :
  forall acc,
    In (k, vs)
       (List.fold_left
          (fun g '(sid, sscale, cname, ntype) =>
             group_append sid
               {| Match.node := cname; Match.type := ntype; Match.scale := sscale |} g)
          l acc) ->
    In x vs ->
    In (k, Match.scale x, Match.node x, Match.type x) l
    \/ exists vs', In (k, vs') acc /\ In x vs'.
Proof.
  induction l as [|[[[sid sscale] cname] ntype] l IH]; intros acc;
    cbn [List.fold_left].
  - intros H Hx. right. eauto.
  - intros H Hx. destruct (IH _ H Hx) as [Hl | [vs' [Hin Hx']]].
    + left. now right.
    + destruct (In_group_append _ _ _ _ _ _ Hin Hx') as [[-> ->] | Hacc].
      * left. now left.
      * now right.
Qed.

(** X10.  When [query_graph] returns, it returns only segments that are
    linked to every requested name: each entry of a returned segment is a
    node linked to it whose canonical name was requested, and every
    requested name is among them. *)
Theorem query_graph_sound (variable_limit : Z) (d : db) (node_names : list string)
        (edge_type : option string) (ms : list Match.t) (m : Match.t) :
  query_graph variable_limit d node_names edge_type = Py.Ok ms ->
  In m ms ->
  (forall name, In name node_names -> linked d (Match.segment_id m) name)
  /\ forall e, In e (Match.nodes m) ->
       In (Match.node e) node_names
       /\ linked d (Match.segment_id m) (Match.node e).
Proof.
  unfold query_graph. intros Hq H.
  destruct (variable_limit <? Z.of_nat (List.length node_names));
    [discriminate Hq|].
  injection Hq as <-.
  apply in_flat_map in H as [[seg_id ns] [Hg H]].
  destruct (forallb _ node_names) eqn:Hall; [|destruct H].
  destruct H as [<- | []]. cbn [Match.segment_id Match.nodes].
  assert (Hentry : forall e, In e ns ->
             In (Match.node e) node_names /\ linked d seg_id (Match.node e)).
  { intros e He.
    destruct (In_query_groups _ _ _ _ _ Hg He) as [Hy | [vs' [[] _]]].
    unfold select_named in Hy.
    apply (proj2 (list_elem_of_In _ _)) in Hy.
    apply (proj1 (elem_of_remove_dups _ _)) in Hy.
    apply (proj1 (list_elem_of_In _ _)) in Hy.
    apply in_flat_map in Hy as [s [Hs Hy]].
    apply in_flat_map in Hy as [n [Hn Hy]].
    destruct (String.eqb_spec (LinkRow.node_id s) (NodeRow.node_id n)) as [Eid|];
      [|destruct Hy].
    destruct (existsb (String.eqb (NodeRow.canonical_name n)) node_names) eqn:Ex;
      [|destruct Hy].
    destruct Hy as [E | []]. injection E as Esid _ Ename _.
    rewrite <- Ename, <- Esid.
    split; [now apply existsb_eqb_In|].
    exists s, n. auto. }
  split; [|exact Hentry].
  intros name Hname.
  rewrite forallb_forall in Hall. specialize (Hall name Hname).
  apply existsb_eqb_In, in_map_iff in Hall as [e [<- He]].
  now apply Hentry.
Qed.

End QueryFacts.

(** ** What retrieval returns *)

Section RetrievalFacts.

Import FractalRetriever.

Variable V : Type.
Context {F : Type} {num : Number F}.
Variable nlp : string -> list Ent.t.
Variable dumps : Json.t -> string.
Variable embed : string -> V.
Variable search : list V -> V -> Z -> list (F * Z).

#[local] Abbreviation retrieve := (fractal_retrieve V nlp embed search).
#[local] Abbreviation index_segs := (index_segments V nlp dumps embed).

(** X11.  For a non-negative [k], [fractal_retrieve] returns at most [k]
    results, and exactly [k] when the scales yield at least [k]
    candidates; with [k = 0] it returns none. *)
Theorem fractal_retrieve_at_most_k (r : t V) (w : world V) (query : string)
        (k : Z) (scale_weights : option (list (string * F)))
        (policy : option string) :
  0 <= k ->
  List.length (retrieve r w query k scale_weights policy)
  = Nat.min (Z.to_nat k)
      (List.length
         (List.flat_map
            (fun '(scale, weight) =>
               scale_results V nlp search r w query (embed query) k scale weight)
            (effective_weights scale_weights policy))).
Proof.
  intros Hk. unfold fractal_retrieve.
  rewrite <- (Z2Nat.id k) at 1 by exact Hk.
  rewrite slice_firstn, List.length_firstn, length_sort_desc. reflexivity.
Qed.

(** X12.  Every result comes from a scale whose effective weight is not
    zero and whose index is in [self.indices] and not empty; its segment is
    a metadata record of that scale, and its context boost is 0. *)
Theorem fractal_retrieve_provenance (r : t V) (w : world V) (query : string)
        (k : Z) (scale_weights : option (list (string * F)))
        (policy : option string) (x : result) :
  In x (retrieve r w query k scale_weights policy) ->
  exists weight index,
    In (scale x, weight) (effective_weights scale_weights policy)
    /\ is_zero weight = false
    /\ indices V r !! scale x = Some index
    /\ index <> []
    /\ In (segment x) (default [] (metadata V r !! scale x))
    /\ context_boost x = lit 0
    /\ graph_boost x = compute_graph_boost V nlp w (segment x) query.
Proof.
  unfold fractal_retrieve. intros H.
  apply In_slice, In_sort_desc, in_flat_map in H as [[s weight] [Hw H]].
  unfold scale_results in H.
  destruct (is_zero weight) eqn:Ez; [destruct H|].
  destruct (indices V r !! s) as [index|] eqn:Ei; [|destruct H].
  destruct (Z.eqb_spec (Z.of_nat (List.length index)) 0) as [|Hne]; [destruct H|].
  apply in_flat_map in H as [[sc idx] [_ H]].
  destruct (_ || _)%bool; [destruct H|].
  destruct (nth_error _ _) as [seg|] eqn:En; [|destruct H].
  destruct H as [<- | []]. cbn [scale segment context_boost graph_boost].
  exists weight, index. repeat split; auto.
  - intros ->. cbn in Hne. lia.
  - eapply nth_error_In, En.
Qed.

(** X13.  A policy name other than the three known ones is ignored, and an
    empty weights dict counts as absent: the call returns what it returns
    without them. *)
Theorem fractal_retrieve_unknown_policy (r : t V) (w : world V) (query : string)
        (k : Z) (scale_weights : option (list (string * F))) (p : string) :
  p <> "line-fix" -> p <> "scene-fix" -> p <> "thematic" ->
  retrieve r w query k scale_weights (Some p)
  = retrieve r w query k scale_weights None
  /\ retrieve r w query k (Some []) (Some p) = retrieve r w query k None None.
Proof.
  intros H1 H2 H3.
  assert (E : forall sw, effective_weights (F := F) sw (Some p)
                         = effective_weights sw None).
  { intros sw. unfold effective_weights, apply_policy.
    destruct (String.eqb p EmptyString); [reflexivity|].
    destruct (String.eqb_spec p "line-fix"); [contradiction|].
    destruct (String.eqb_spec p "scene-fix"); [contradiction|].
    destruct (String.eqb_spec p "thematic"); [contradiction|].
    reflexivity. }
  unfold fractal_retrieve. rewrite !E. split; reflexivity.
Qed.

End RetrievalFacts.

(** ** What indexing keeps *)

Section IndexingFacts.

Import FractalRetriever ObserveIndex.

Variable V : Type.
Variable nlp : string -> list Ent.t.
Variable dumps : Json.t -> string.
Variable embed : string -> V.

#[local] Abbreviation index_segs := (index_segments V nlp dumps embed).

Lemma embedding_id_set (s : AnySegment.t) (e : Z) :
  AnySegment.embedding_id (AnySegment.set_embedding_id s e) = Some e.
Proof. destruct s; reflexivity. Qed.

Lemma nth_assign_ids (segments : list AnySegment.t) (start_id : Z) (i : nat)
      (seg : AnySegment.t) :
  nth_error (assign_ids start_id segments) i = Some seg ->
  AnySegment.embedding_id seg = Some (start_id + Z.of_nat i).
Proof.
  revert start_id i. induction segments as [|s l IH]; intros start_id [|i];
    cbn [assign_ids nth_error]; try discriminate.
  - intros E. injection E as <-. rewrite embedding_id_set. f_equal. lia.
  - intros E. rewrite (IH _ _ E). f_equal. lia.
Qed.

(** X14.  Once the metadata records of a scale sit at the positions of its
    vectors, [index_segments] keeps them so: after the call the scale has
    as many records as vectors and the record at position [i] has
    embedding id [i]; the other scales are not touched. *)
Theorem index_segments_keeps_aligned (r : t V) (w : world V)
        (segments : list AnySegment.t) (s : string) (index : list V) :
  indices V r !! s = Some index ->
  aligned index (default [] (metadata V r !! s)) ->
  (exists index' meta',
      indices V (fst (fst (index_segs r w segments s))) !! s = Some index'
      /\ metadata V (fst (fst (index_segs r w segments s))) !! s = Some meta'
      /\ aligned index' meta')
  /\ forall s', s' <> s ->
       indices V (fst (fst (index_segs r w segments s))) !! s' = indices V r !! s'
       /\ metadata V (fst (fst (index_segs r w segments s))) !! s'
          = metadata V r !! s'.
Proof.
  intros Ei [Hlen Hid]. unfold index_segments. rewrite Ei.
  assert (Ha : aligned
                 (index ++ List.map embed (List.map AnySegment.text segments))
                 (default [] (metadata V r !! s)
                    ++ assign_ids (Z.of_nat (List.length index)) segments)).
  { split.
    - rewrite !List.length_app, !List.length_map, length_assign_ids. lia.
    - intros i seg Hn.
      destruct (Nat.lt_ge_cases i (List.length (default [] (metadata V r !! s))))
        as [Hlt|Hge].
      + rewrite nth_error_app1 in Hn by exact Hlt. now apply Hid.
      + rewrite nth_error_app2 in Hn by exact Hge.
        apply nth_assign_ids in Hn. rewrite Hn. f_equal. lia. }
  destruct (index_paths !! s); cbn [fst indices metadata].
  - split.
    + eexists _, _. rewrite !lookup_insert_eq. repeat split; apply Ha.
    + intros s' Hne. rewrite !lookup_insert_ne by congruence. auto.
  - split.
    + eexists _, _. rewrite !lookup_insert_eq. repeat split; apply Ha.
    + intros s' Hne. rewrite !lookup_insert_ne by congruence. auto.
Qed.

(** X15.  For a scale that is neither micro, meso nor macro and that the
    instance does not hold, [index_segments] raises [KeyError] and changes
    nothing, in the instance or on disk. *)
Theorem index_segments_unknown_scale (r : t V) (w : world V)
        (segments : list AnySegment.t) (s : string) :
  s <> "micro" -> s <> "meso" -> s <> "macro" ->
  indices V r !! s = None ->
  index_segs r w segments s = (r, w, Py.Raise Py.KeyError).
Proof.
  intros H1 H2 H3 Ei. unfold index_segments, load_or_create_index. rewrite Ei.
  assert (E : index_paths !! s = None).
  { unfold index_paths. rewrite !lookup_insert_ne by congruence.
    apply lookup_empty. }
  rewrite E. reflexivity.
Qed.

(** X16.  After a call that returns, the index file of the scale holds the
    index of the instance, so that loading it gives the same vectors back,
    and the metadata file holds the metadata of the instance; for a scale
    other than meso the graph is left as it was. *)
Theorem index_segments_persists (r r' : t V) (w w' : world V)
        (segments : list AnySegment.t) (s : string) :
  index_segs r w segments s = (r', w', Py.Ok tt) ->
  (exists index,
      indices V r' !! s = Some index
      /\ load_or_create_index V w' s = Py.Ok index)
  /\ meta_files V w' !! (META_PREFIX ++ "_" ++ s ++ ".npy") = metadata V r' !! s
  /\ (s <> "meso" -> graph V w' = graph V w).
Proof.
  unfold index_segments.
  destruct (match indices V r !! s with
            | Some ix => Py.Ok ix
            | None => load_or_create_index V w s
            end) as [index0|e]; [|discriminate].
  destruct (index_paths !! s) as [path|] eqn:Ep; [|discriminate].
  intros E. injection E as <- <-. cbn [indices metadata index_files meta_files graph].
  repeat split.
  - eexists. rewrite lookup_insert_eq. split; [reflexivity|].
    unfold load_or_create_index. rewrite Ep. cbn [index_files].
    now rewrite lookup_insert_eq.
  - now rewrite !lookup_insert_eq.
  - intros Hne. destruct (String.eqb_spec s "meso"); [contradiction | reflexivity].
Qed.

End IndexingFacts.

(** ** The order of the results *)

Section OrderFacts.

Import FractalRetriever.

Variable V : Type.
Context {F : Type} {num : Number F}.
Variable nlp : string -> list Ent.t.
Variable embed : string -> V.
Variable search : list V -> V -> Z -> list (F * Z).

(** The comparison of floats is asymmetric, and "not less than" is
    transitive, as on numbers that are not NaN. *)
Hypothesis ltb_asym : forall a b : F, ltb a b = true -> ltb b a = false.
Hypothesis geb_trans :
  forall a b c : F, ltb a b = false -> ltb b c = false -> ltb a c = false.

#[local] Abbreviation not_below :=
  (fun x y : result => ltb (score x) (score y) = false).

Lemma insert_desc_sorted (x : result) (l : list result) :
  StronglySorted not_below l -> StronglySorted not_below (insert_desc x l).
Proof.
  induction 1 as [|y l Hs IH Hall]; cbn [insert_desc].
  - repeat constructor.
  - destruct (ltb (score y) (score x)) eqn:E.
    + constructor; [constructor; assumption|].
      constructor; [now apply ltb_asym|].
      apply List.Forall_forall. intros z Hz.
      rewrite List.Forall_forall in Hall.
      eapply geb_trans; [apply ltb_asym, E | now apply Hall].
    + constructor; [exact IH|].
      apply List.Forall_forall. intros z Hz.
      apply In_insert_desc in Hz as [->|Hz]; [exact E|].
      rewrite List.Forall_forall in Hall. now apply Hall.
Qed.

Lemma sort_desc_sorted (l : list result) : StronglySorted not_below (sort_desc l).
Proof.
  unfold sort_desc.
  assert (H : forall acc, StronglySorted not_below acc ->
             StronglySorted not_below
               (List.fold_left (fun a x => insert_desc x a) l acc)).
  { induction l as [|x l IH]; intros acc Hacc; cbn [List.fold_left]; [exact Hacc|].
    apply IH. now apply insert_desc_sorted. }
  apply H. constructor.
Qed.

Lemma firstn_sorted {X} (R : X -> X -> Prop) (n : nat) (l : list X) :
  StronglySorted R l -> StronglySorted R (firstn n l).
Proof.
  intros H. revert n. induction H as [|x l Hs IH Hall]; intros [|n];
    cbn [firstn]; try constructor.
  - apply IH.
  - apply List.Forall_forall. intros z Hz.
    rewrite List.Forall_forall in Hall. apply Hall.
    rewrite <- (firstn_skipn n l). apply in_or_app. now left.
Qed.

(** X17.  For a non-negative [k], the results are in descending order of
    score: no result is followed, anywhere later in the list, by one of
    higher score. *)
Theorem fractal_retrieve_descending (r : t V) (w : world V) (query : string)
        (k : Z) (scale_weights : option (list (string * F)))
        (policy : option string) :
  0 <= k ->
  StronglySorted (fun x y : result => ltb (score x) (score y) = false)
    (fractal_retrieve V nlp embed search r w query k scale_weights policy).
Proof.
  intros Hk. unfold fractal_retrieve.
  rewrite <- (Z2Nat.id k) by exact Hk.
  rewrite slice_firstn. apply firstn_sorted, sort_desc_sorted.
Qed.

End OrderFacts.

(** ** Motif clusters *)

Section ClusterFacts.

Import MotifClusterer ObserveClusters.

#[local] Abbreviation with_label k l :=
  (List.map fst (List.filter (fun p : Z * Z => snd p =? k) l)).

Lemma existsb_Zeqb_In (k : Z) (l : list Z) : existsb (Z.eqb k) l = true <-> In k l.
Proof.
  rewrite existsb_exists. split.
  - intros [y [Hy E]]. apply Z.eqb_eq in E. now subst.
  - intros H. exists k. split; [assumption | apply Z.eqb_refl].
Qed.

Lemma keys_group_append (key v : Z) (g : list (Z * list Z)) :
  List.map fst (group_append key v g)
  = if existsb (Z.eqb key) (List.map fst g) then List.map fst g
    else (List.map fst g ++ [key])%list.
Proof.
  induction g as [|[k vs] g IH]; cbn [group_append List.map existsb fst];
    [reflexivity|].
  rewrite (Z.eqb_sym key k).
  destruct (k =? key); cbn [orb List.map fst]; [reflexivity|].
  rewrite IH. destruct (existsb _ _); reflexivity.
Qed.

Lemma NoDup_group_append (key v : Z) (g : list (Z * list Z)) :
  List.NoDup (List.map fst g) -> List.NoDup (List.map fst (group_append key v g)).
Proof.
  intros H. rewrite keys_group_append.
  destruct (existsb (Z.eqb key) (List.map fst g)) eqn:E; [exact H|].
  apply List.NoDup_app; [exact H | repeat constructor; intros [] |].
  intros k Hk [<- | []]. apply existsb_Zeqb_In in Hk. congruence.
Qed.

Lemma In_cluster_append (key v : Z) (g : list (Z * list Z)) (k : Z) (vs : list Z) :
  List.NoDup (List.map fst g) ->
  In (k, vs) (group_append key v g) ->
  (k <> key /\ In (k, vs) g)
  \/ (k = key
      /\ ((exists vs0, In (key, vs0) g /\ vs = (vs0 ++ [v])%list)
          \/ (~ In key (List.map fst g) /\ vs = [v]))).
Proof.
  induction g as [|[k' vs'] g IH]; cbn [group_append List.map fst]; intros Hnd.
  - intros [E | []]. injection E as <- <-. right. split; [reflexivity|].
    right. split; [intros [] | reflexivity].
  - apply NoDup_cons_iff in Hnd as [Hk' Hnd].
    destruct (Z.eqb_spec k' key) as [->|Hne].
    + intros [E | H].
      * injection E as <- <-. right. split; [reflexivity|]. left.
        exists vs'. split; [now left | reflexivity].
      * left. split; [|now right].
        intros ->. apply Hk'. apply in_map_iff. exists (key, vs). auto.
    + intros [E | H].
      * injection E as <- <-. left. split; [exact Hne | now left].
      * destruct (IH Hnd H) as [[Hk Hin] | [-> [[vs0 [Hin ->]] | [Hnot ->]]]].
        -- left. split; [exact Hk | now right].
        -- right. split; [reflexivity|]. left. exists vs0.
           split; [now right | reflexivity].
        -- right. split; [reflexivity|]. right. split; [|reflexivity].
           intros [E | Hin]; [congruence | contradiction].
Qed.

Lemma with_label_snoc (k : Z) (pre : list (Z * Z)) (p : Z * Z) :
  with_label k (pre ++ [p])%list
  = (with_label k pre ++ (if snd p =? k then [fst p] else []))%list.
Proof.
  rewrite List.filter_app, List.map_app. cbn [List.filter].
  destruct (snd p =? k); reflexivity.
Qed.

Lemma with_label_absent (k : Z) (pre : list (Z * Z)) :
  (forall p, In p pre -> snd p <> k) -> with_label k pre = [].
Proof.
  induction pre as [|p pre IH]; intros H; [reflexivity|].
  cbn [List.filter]. destruct (Z.eqb_spec (snd p) k) as [E|_].
  - exfalso. exact (H p (or_introl eq_refl) E).
  - apply IH. intros q Hq. apply H. now right.
Qed.

Lemma grouped_step (pre : list (Z * Z)) (g : list (Z * list Z)) (i label : Z) :
  grouped pre g ->
  grouped (pre ++ [(i, label)])%list
          (if 0 <=? label then group_append label i g else g).
Proof.
  intros [Hnd [Hin Hkeys]].
  destruct (Z.leb_spec 0 label) as [Hpos|Hneg].
  - split; [now apply NoDup_group_append|]. split.
    + intros k vs H. rewrite with_label_snoc. cbn [fst snd].
      destruct (In_cluster_append _ _ _ _ _ Hnd H)
        as [[Hk Hg] | [-> [[vs0 [Hg ->]] | [Hnot ->]]]].
      * destruct (Hin _ _ Hg) as [H0 ->]. split; [exact H0|].
        destruct (Z.eqb_spec label k); [congruence | now rewrite app_nil_r].
      * destruct (Hin _ _ Hg) as [H0 ->]. split; [exact H0|].
        now rewrite Z.eqb_refl.
      * split; [exact Hpos|]. rewrite Z.eqb_refl.
        rewrite with_label_absent; [reflexivity|].
        intros p Hp E. apply Hnot. rewrite <- E. apply Hkeys; [exact Hp | lia].
    + intros p Hp H0. rewrite keys_group_append.
      apply in_app_or in Hp as [Hp | [<- | []]].
      * specialize (Hkeys p Hp H0).
        destruct (existsb _ _); [exact Hkeys | apply in_or_app; now left].
      * cbn [snd]. destruct (existsb (Z.eqb label) (List.map fst g)) eqn:E.
        -- now apply existsb_Zeqb_In.
        -- apply in_or_app. right. now left.
  - split; [exact Hnd|]. split.
    + intros k vs H. destruct (Hin _ _ H) as [H0 ->]. split; [exact H0|].
      rewrite with_label_snoc. cbn [snd].
      destruct (Z.eqb_spec label k); [lia | now rewrite app_nil_r].
    + intros p Hp H0. apply in_app_or in Hp as [Hp | [<- | []]].
      * now apply Hkeys.
      * cbn [snd] in H0. lia.
Qed.

Lemma grouped_fold (rest pre : list (Z * Z)) (g : list (Z * list Z)) :
  grouped pre g ->
  grouped (pre ++ rest)%list
    (List.fold_left
       (fun clusters '(i, label) =>
          if 0 <=? label then group_append label i clusters else clusters)
       rest g).
Proof.
  revert pre g. induction rest as [|[i label] rest IH]; intros pre g H;
    cbn [List.fold_left].
  - now rewrite app_nil_r.
  - replace (pre ++ (i, label) :: rest)%list
      with ((pre ++ [(i, label)]) ++ rest)%list
      by now rewrite <- List.app_assoc.
    apply IH. now apply grouped_step.
Qed.

(** The clusters of the first loop: one per label that is not noise, each
    with the positions of its label. *)
Lemma group_labels_positions (labels : list Z) :
  List.NoDup (List.map fst (group_labels labels))
  /\ forall k vs, In (k, vs) (group_labels labels) ->
       0 <= k /\ vs = positions labels k.
Proof.
  destruct (grouped_fold (enumerate labels) [] []) as [Hnd [Hin _]].
  - split; [constructor|]. split; [intros k vs [] | intros p []].
  - split; [exact Hnd | exact Hin].
Qed.

Lemma length_texts_at (texts : list string) (indices : list Z) (ts : list string) :
  texts_at texts indices = Some ts -> List.length ts = List.length indices.
Proof.
  revert ts. induction indices as [|i r IH]; intros ts; cbn [texts_at].
  - intros E. now injection E as <-.
  - destruct (nth_error texts (Z.to_nat i)); [|discriminate].
    destruct (texts_at texts r) as [ts'|]; [|discriminate].
    intros E. injection E as <-. cbn. f_equal. now apply IH.
Qed.

Variable V : Type.
Variable fit_predict : list V -> list Z.
Variable top_keywords : list string -> list string.

Lemma In_label_clusters (texts : list string) (clusters : list (Z * list Z))
      (motifs : list (Z * Motif.t)) :
  label_clusters top_keywords texts clusters = Some motifs ->
  (forall cid m, In (cid, m) motifs ->
     exists indices ts,
       In (cid, indices) clusters
       /\ texts_at texts indices = Some ts
       /\ (2 <= List.length indices)%nat
       /\ m = {| Motif.label := generate_motif_label (top_keywords ts);
                 Motif.keywords := top_keywords ts;
                 Motif.size := Z.of_nat (List.length indices);
                 Motif.segment_indices := Py.slice indices 0 10 |})
  /\ (List.NoDup (List.map fst clusters) -> List.NoDup (List.map fst motifs))
  /\ (forall cid, In cid (List.map fst motifs) -> In cid (List.map fst clusters)).
Proof.
  revert motifs. induction clusters as [|[cid0 indices0] rest IH]; intros motifs;
    cbn [label_clusters].
  - intros E. injection E as <-. repeat split; [intros ? ? [] | constructor | auto].
  - destruct (texts_at texts indices0) as [ts0|] eqn:Et; [|discriminate].
    destruct (label_clusters top_keywords texts rest) as [motifs0|]; [|discriminate].
    destruct (IH motifs0 eq_refl) as [H1 [H2 H3]].
    destruct (Nat.leb_spec 2 (List.length ts0)) as [Hge|Hlt].
    + intros E. injection E as <-. repeat split.
      * intros cid m [E | H].
        -- injection E as <- <-. exists indices0, ts0.
           rewrite <- (length_texts_at _ _ _ Et). repeat split; auto. now left.
        -- destruct (H1 _ _ H) as [indices [ts [? ?]]].
           exists indices, ts. split; [now right | assumption].
      * cbn [List.map fst]. intros Hnd. apply NoDup_cons_iff in Hnd as [Hn Hnd].
        constructor; [|now apply H2]. intros Hc. apply Hn. now apply H3.
      * cbn [List.map fst]. intros cid [<- | H]; [now left | right; now apply H3].
    + intros E. injection E as <-. repeat split.
      * intros cid m H. destruct (H1 _ _ H) as [indices [ts [? ?]]].
        exists indices, ts. split; [now right | assumption].
      * cbn [List.map fst]. intros Hnd. apply NoDup_cons_iff in Hnd as [_ Hnd].
        now apply H2.
      * cbn [List.map fst]. intros cid H. right. now apply H3.
Qed.

(** X18.  When [cluster_embeddings] returns, every reported cluster has a
    label of the clusterer that is not noise (0 or more) and that is carried
    by at least two embeddings; its size is the number of embeddings that
    carry the label, its sample the first ten of their positions in
    ascending order, its keywords the ones extracted from the texts at
    those positions and its label the one generated from the keywords; no
    cluster id is reported twice. *)
Theorem cluster_embeddings_reports (embeddings : list V) (texts : list string)
        (motifs : list (Z * Motif.t)) :
  cluster_embeddings V fit_predict top_keywords embeddings texts = Some motifs ->
  List.NoDup (List.map fst motifs)
  /\ forall cid m, In (cid, m) motifs ->
       0 <= cid
       /\ 2 <= Motif.size m
       /\ Motif.size m
          = Z.of_nat (List.length (positions (fit_predict embeddings) cid))
       /\ Motif.segment_indices m
          = firstn 10 (positions (fit_predict embeddings) cid)
       /\ (exists ts,
              texts_at texts (positions (fit_predict embeddings) cid) = Some ts
              /\ Motif.keywords m = top_keywords ts)
       /\ Motif.label m = generate_motif_label (Motif.keywords m).
Proof.
  unfold cluster_embeddings. intros H.
  destruct (group_labels_positions (fit_predict embeddings)) as [Hnd Hpos].
  destruct (In_label_clusters _ _ _ H) as [H1 [H2 _]].
  split; [now apply H2|].
  intros cid m Hm.
  destruct (H1 _ _ Hm) as [indices [ts [Hin [Ht [Hlen ->]]]]].
  destruct (Hpos _ _ Hin) as [H0 ->].
  cbn [Motif.size Motif.segment_indices Motif.keywords Motif.label].
  repeat split; try lia.
  - apply (slice_firstn _ 10).
  - exists ts. split; [exact Ht | reflexivity].
Qed.

End ClusterFacts.

Section LabelFacts.

Import MotifClusterer ObserveClusters.

Lemma intersects_iff (lex keywords : list string) :
  intersects lex keywords = true <-> exists k, In k lex /\ In k keywords.
Proof.
  unfold intersects. rewrite existsb_exists. split.
  - intros [k [Hk H]]. exists k. split; [exact Hk|]. now apply existsb_eqb_In.
  - intros [k [Hk H]]. exists k. split; [exact Hk|]. now apply existsb_eqb_In.
Qed.

Lemma intersects_same (lex kw kw' : list string) :
  (forall k, In k lex -> (In k kw <-> In k kw')) ->
  intersects lex kw = intersects lex kw'.
Proof.
  intros H. apply eq_true_iff_eq. rewrite !intersects_iff.
  split; intros [k [Hk Hin]]; exists k; (split; [exact Hk|]); now apply (H k Hk).
Qed.

(** X19.  As soon as one keyword belongs to a lexicon of
    [generate_motif_label], the label depends only on which lexicon words are
    among the keywords, not on their rank, their repetitions or the other
    keywords. *)
Theorem generate_motif_label_by_presence (keywords keywords' : list string) :
  (forall k, In k lexicon -> (In k keywords <-> In k keywords')) ->
  intersects lexicon keywords = true ->
  generate_motif_label keywords' = generate_motif_label keywords.
Proof.
  intros H Hhit. unfold generate_motif_label.
  assert (Hsub : forall lex, (forall k, In k lex -> In k lexicon) ->
                             intersects lex keywords' = intersects lex keywords).
  { intros lex Hl. symmetry. apply intersects_same.
    intros k Hk. apply H, Hl, Hk. }
  rewrite !Hsub by (intros k Hk; cbn in Hk; cbn; tauto).
  change lexicon
    with (["frost"; "cold"; "ice"; "frozen"] ++ ["purple"; "violet"; "stain"]
            ++ ["water"; "rain"; "river"; "ocean"]
            ++ ["dark"; "shadow"; "night"; "darkness"])%list in Hhit.
  unfold intersects in Hhit. rewrite !existsb_app in Hhit.
  fold (intersects ["frost"; "cold"; "ice"; "frozen"] keywords) in Hhit.
  fold (intersects ["purple"; "violet"; "stain"] keywords) in Hhit.
  fold (intersects ["water"; "rain"; "river"; "ocean"] keywords) in Hhit.
  fold (intersects ["dark"; "shadow"; "night"; "darkness"] keywords) in Hhit.
  destruct (intersects ["frost"; "cold"; "ice"; "frozen"] keywords); [reflexivity|].
  destruct (intersects ["purple"; "violet"; "stain"] keywords); [reflexivity|].
  destruct (intersects ["water"; "rain"; "river"; "ocean"] keywords); [reflexivity|].
  destruct (intersects ["dark"; "shadow"; "night"; "darkness"] keywords);
    [reflexivity | discriminate].
Qed.

End LabelFacts.

(** ** References between the tables *)

Section ReferenceFacts.

Import NarrativeGraphManager Observe ObserveRows.

Variable nlp : string -> list Ent.t.
Variable dumps : Json.t -> string.
Variable character_aliases : gmap string string.

#[local] Abbreviation extract := (extract_entities nlp character_aliases).
#[local] Abbreviation update := (update_graph nlp dumps character_aliases).

Lemma In_pairs {X} (l : list X) (p : X * X) :
  In p (pairs l) -> In (fst p) l /\ In (snd p) l.
Proof.
  induction l as [|x l IH]; cbn [pairs]; [intros []|].
  intros H. apply in_app_or in H as [H|H].
  - apply in_map_iff in H as [y [<- Hy]]. cbn. auto.
  - destruct (IH H). split; now right.
Qed.

Lemma keys_upsert_grow {X} (key : X -> string) (bump : X -> X)
      (n : X) (rows : list X) (k : string) :
  (forall r, key (bump r) = key r) ->
  In k (List.map key rows) \/ k = key n ->
  In k (List.map key (Keyed.upsert key bump n rows)).
Proof.
  intros Hb H. rewrite (keys_upsert key bump Hb).
  destruct (Keyed.has key (key n) rows) eqn:E.
  - destruct H as [H | ->]; [exact H | now apply (has_In key)].
  - apply in_or_app. destruct H as [H | ->]; [now left | right; now left].
Qed.

Lemma keys_upserts_grow {X} (key : X -> string) (bump : X -> X)
      (news rows : list X) (k : string) :
  (forall r, key (bump r) = key r) ->
  In k (List.map key rows) \/ In k (List.map key news) ->
  In k (List.map key
          (List.fold_left (fun acc r => Keyed.upsert key bump r acc) news rows)).
Proof.
  intros Hb. revert rows. induction news as [|n news IH]; intros rows;
    cbn [List.fold_left List.map In].
  - intros [H | []]. exact H.
  - intros [H | [E | H]]; apply IH.
    + left. apply keys_upsert_grow; auto.
    + left. apply keys_upsert_grow; auto.
    + now right.
Qed.

Lemma node_ids_update_graph (d : db) (segment : seg) (scale k : string) :
  In k (List.map NodeRow.node_id (nodes d))
  \/ In k (extracted_ids nlp character_aliases segment scale) ->
  In k (List.map NodeRow.node_id (nodes (update d segment scale))).
Proof.
  intros H.
  destruct (nodes_update_centrality
              (apply_entities dumps d (extract (text segment) (id segment) scale)
                              segment scale)) as [Hk _].
  unfold update_graph. rewrite Hk, nodes_apply_entities.
  apply (keys_upserts_grow NodeRow.node_id more_frequent); [reflexivity|].
  destruct H as [H|H]; [now left | right].
  unfold extracted_ids in H. now rewrite List.map_map.
Qed.

Lemma In_inserted_links (sid scale : string) (es : list GraphNode.t)
      (rows : list LinkRow.t) (l : LinkRow.t) :
  In l (List.fold_left
          (fun acc e => insert_link sid (GraphNode.node_id e) scale acc) es rows) ->
  In l rows \/ In (LinkRow.node_id l) (List.map GraphNode.node_id es).
Proof.
  revert rows. induction es as [|e es IH]; intros rows; cbn [List.fold_left List.map In];
    [auto|].
  intros H. destruct (IH _ H) as [H'|H']; [|right; now right].
  unfold insert_link in H'. destruct (has_link _ _ _); [now left|].
  apply in_app_or in H' as [H' | [<- | []]]; [now left|].
  right. now left.
Qed.

Lemma referenced_update (d : db) (segment : seg) (scale : string) :
  referenced d -> referenced (update d segment scale).
Proof.
  intros [He Hl]. split.
  - intros e Hin.
    assert (Hi : In (edge_identity e)
                    (List.map edge_identity (edges (update d segment scale))))
      by now apply in_map.
    rewrite (edges_update_graph nlp dumps character_aliases) in Hi.
    destruct (proj_upserts EdgeRow.edge_id heavier edge_identity
                (fun r => eq_refl)
                (List.map (edge_row dumps segment scale)
                   (pairs (extracted_ids nlp character_aliases segment scale)))
                (edges d)) as [extra [E Hex]].
    rewrite E in Hi. apply in_app_or in Hi as [Hi|Hi].
    + apply in_map_iff in Hi as [e0 [E0 Hin0]].
      injection E0 as _ Ef Et _ _. rewrite <- Ef, <- Et.
      destruct (He e0 Hin0). split; apply node_ids_update_graph; now left.
    + apply Hex, in_map_iff in Hi as [e0 [E0 Hin0]].
      apply in_map_iff in Hin0 as [p [<- Hp]].
      injection E0 as _ Ef Et _ _. rewrite <- Ef, <- Et.
      cbn [edge_row EdgeRow.from_node EdgeRow.to_node].
      destruct (In_pairs _ _ Hp). split; apply node_ids_update_graph; now right.
  - intros l Hin. apply In_inserted_links in Hin as [Hin|Hin];
      apply node_ids_update_graph; [left; now apply Hl | now right].
Qed.

(** X20.  The program keeps the references of the schema although SQLite is
    not asked to enforce them: if every endpoint of an edge and every node
    of a link is the id of a node row, the same holds after any sequence of
    [update_graph] calls, and so in every graph built from the empty one. *)
Theorem ingest_keeps_references (d : db) (calls : list (seg * string)) :
  referenced d -> referenced (ingest nlp dumps character_aliases d calls).
Proof.
  revert d. induction calls as [|[segment scale] calls IH]; intros d H; [exact H|].
  unfold ingest. cbn [List.fold_left]. apply IH. now apply referenced_update.
Qed.

Lemma degree_by_columns (es : list EdgeRow.t) (nid : string) :
  degree es nid = leaving es nid + reaching es nid - looping es nid.
Proof.
  unfold degree, leaving, reaching, looping.
  induction es as [|e es IH]; [reflexivity|].
  cbn [List.filter List.map count_occ].
  destruct (String.string_dec (EdgeRow.from_node e) nid) as [Ef|Ef],
           (String.eqb_spec (EdgeRow.from_node e) nid); try contradiction;
    cbn [orb List.map count_occ List.length];
    destruct (String.string_dec (EdgeRow.to_node e) nid) as [Et|Et],
             (String.eqb_spec (EdgeRow.to_node e) nid); try contradiction;
    cbn [List.length]; lia.
Qed.

(** X21.  After [update_graph] no centrality is NULL: for every node of
    the graph, extracted from this segment or not, it is the number of
    edge rows that leave the node plus the number that reach it, an edge
    from the node to itself counting once; the edges written by the same
    call count. *)
Theorem update_graph_centrality (d : db) (segment : seg) (scale : string)
        (r : NodeRow.t) :
  In r (nodes (update d segment scale)) ->
  NodeRow.centrality r
  = Some (leaving (edges (update d segment scale)) (NodeRow.node_id r)
          + reaching (edges (update d segment scale)) (NodeRow.node_id r)
          - looping (edges (update d segment scale)) (NodeRow.node_id r)).
Proof.
  rewrite <- degree_by_columns.
  unfold update_graph, update_centrality. cbn [nodes edges].
  intros H. apply in_map_iff in H as [r0 [<- _]]. reflexivity.
Qed.

End ReferenceFacts.

(** ** The further properties on concrete inputs *)

Section ExtraExamples.

Import NarrativeGraphManager Observe ObserveRows.

#[local] Abbreviation update3 :=
  (update_graph Samples.three_sentences Samples.dumps_empty load_character_aliases).
#[local] Abbreviation ingest3 :=
  (ingest Samples.three_sentences Samples.dumps_empty load_character_aliases).

Lemma update_graph_links_once_witness :
  has_link "meso_ch1_0" "character_thomas"
           (segment_nodes (update3 empty Samples.tom_scene "meso"))
  = true.
Proof.
  apply (proj1 (update_graph_links_once
                  Samples.three_sentences Samples.dumps_empty load_character_aliases
                  empty Samples.tom_scene "meso" "meso")).
  vm_compute. auto.
Defined.

Lemma find_continuity_violations_on_built_graph_witness :
  exists vs,
    find_continuity_violations MoreSamples.loads_empty
      (ingest3 empty Samples.alice_carol) "Alice" = Py.Ok vs
    /\ vs = [].
Proof.
  assert (H : exists vs,
             find_continuity_violations MoreSamples.loads_empty
               (ingest3 empty Samples.alice_carol) "Alice" = Py.Ok vs).
  { vm_compute. eexists. reflexivity. }
  destruct H as [vs H]. exists vs. split; [exact H|].
  exact (find_continuity_violations_on_built_graph
           Samples.three_sentences Samples.dumps_empty MoreSamples.loads_empty
           load_character_aliases Samples.alice_carol "Alice" vs H).
Defined.

Lemma query_graph_sound_witness :
  exists ms m,
    query_graph SQLITE_MAX_VARIABLE_NUMBER Samples.alice_frost ["Alice"; "frost"] None
    = Py.Ok ms
    /\ In m ms
    /\ linked Samples.alice_frost (Match.segment_id m) "frost".
Proof.
  assert (H : exists ms m,
             query_graph SQLITE_MAX_VARIABLE_NUMBER Samples.alice_frost
                         ["Alice"; "frost"] None = Py.Ok ms
             /\ In m ms).
  { vm_compute. eexists. eexists. split; [reflexivity | left; reflexivity]. }
  destruct H as [ms [m [Hq H]]]. exists ms, m. split; [exact Hq|]. split; [exact H|].
  apply (proj1 (query_graph_sound SQLITE_MAX_VARIABLE_NUMBER Samples.alice_frost
                                  ["Alice"; "frost"] None ms m Hq H)).
  right. now left.
Defined.

Lemma ingest_keeps_references_witness :
  referenced (ingest3 empty Samples.alice_carol).
Proof.
  apply (ingest_keeps_references
           Samples.three_sentences Samples.dumps_empty load_character_aliases
           empty Samples.alice_carol).
  split; intros x [].
Defined.

(** After the second of the two scenes of Alice and Carol, Alice has one
    edge to Carol and one from Carol, the latter written by this call. *)
Lemma update_graph_centrality_witness :
  exists r,
    In r (nodes (update3 (update3 empty (Samples.scene "meso_ch1_0" "Alice met Carol.")
                                  "meso")
                         (Samples.scene "meso_ch1_1" "Carol met Alice.") "meso"))
    /\ NodeRow.node_id r = "character_alice"
    /\ NodeRow.centrality r = Some (1 + 1 - 0).
Proof.
  assert (H : exists r,
             In r (nodes (update3 (update3 empty
                                           (Samples.scene "meso_ch1_0" "Alice met Carol.")
                                           "meso")
                                  (Samples.scene "meso_ch1_1" "Carol met Alice.")
                                  "meso"))
             /\ NodeRow.node_id r = "character_alice").
  { vm_compute. eexists. split; [left; reflexivity | reflexivity]. }
  destruct H as [r [H E]]. exists r. split; [exact H|]. split; [exact E|].
  rewrite (update_graph_centrality
             Samples.three_sentences Samples.dumps_empty load_character_aliases
             _ _ "meso" r H).
  rewrite E. vm_compute. reflexivity.
Defined.

End ExtraExamples.

Section ExtraRetrieverExamples.

Import FractalRetriever ObserveIndex.

#[local] Abbreviation retrieve1 :=
  (fractal_retrieve nat Samples.no_entities Samples.embed_one Samples.search_first
                    (fst WitnessInputs.first_call) (snd WitnessInputs.first_call)).
#[local] Abbreviation index1 :=
  (index_segments nat Samples.no_entities Samples.dumps_empty Samples.embed_one).

Lemma fractal_retrieve_at_most_k_witness :
  List.length (retrieve1 "q" 10 None None) = 1%nat.
Proof.
  rewrite (fractal_retrieve_at_most_k
             nat Samples.no_entities Samples.embed_one Samples.search_first
             (fst WitnessInputs.first_call) (snd WitnessInputs.first_call)
             "q" 10 None None) by lia.
  vm_compute. reflexivity.
Defined.

Lemma fractal_retrieve_provenance_witness :
  exists x weight index,
    In x (retrieve1 "q" 10 None None)
    /\ In (scale x, weight) (effective_weights (F := Q) None None)
    /\ is_zero weight = false
    /\ indices nat (fst WitnessInputs.first_call) !! scale x = Some index
    /\ index <> [].
Proof.
  assert (H : exists x, In x (retrieve1 "q" 10 None None)).
  { vm_compute. eexists. left. reflexivity. }
  destruct H as [x H].
  destruct (fractal_retrieve_provenance
              nat Samples.no_entities Samples.embed_one Samples.search_first
              (fst WitnessInputs.first_call) (snd WitnessInputs.first_call)
              "q" 10 None None x H) as [weight [index [H1 [H2 [H3 [H4 _]]]]]].
  exists x, weight, index. auto.
Defined.

Lemma fractal_retrieve_unknown_policy_witness :
  retrieve1 "q" 10 None (Some "fast") = retrieve1 "q" 10 None None.
Proof.
  apply (proj1 (fractal_retrieve_unknown_policy
                  nat Samples.no_entities Samples.embed_one Samples.search_first
                  (fst WitnessInputs.first_call) (snd WitnessInputs.first_call)
                  "q" 10 None "fast" ltac:(discriminate) ltac:(discriminate)
                  ltac:(discriminate))).
Defined.

Lemma Q_ltb_asym (a b : Q) : ltb a b = true -> ltb b a = false.
Proof.
  cbn. rewrite negb_true_iff, negb_false_iff. intros H.
  apply Qle_bool_iff. apply Qlt_le_weak, Qnot_le_lt.
  intros Hle. apply Qle_bool_iff in Hle. congruence.
Qed.

Lemma Q_geb_trans (a b c : Q) :
  ltb a b = false -> ltb b c = false -> ltb a c = false.
Proof.
  cbn. rewrite !negb_false_iff, !Qle_bool_iff. intros H1 H2.
  now apply (Qle_trans _ b).
Qed.

Lemma fractal_retrieve_descending_witness :
  StronglySorted (fun x y : result => ltb (score x) (score y) = false)
                 (retrieve1 "q" 10 None None).
Proof.
  apply (fractal_retrieve_descending
           nat Samples.no_entities Samples.embed_one Samples.search_first
           Q_ltb_asym Q_geb_trans
           (fst WitnessInputs.first_call) (snd WitnessInputs.first_call)
           "q" 10 None None).
  lia.
Defined.

Lemma index_segments_keeps_aligned_witness :
  exists index' meta',
    indices nat (fst (fst (index1 (fst WitnessInputs.first_call)
                                  (snd WitnessInputs.first_call)
                                  Samples.one_micro "micro"))) !! "micro"
    = Some index'
    /\ metadata nat (fst (fst (index1 (fst WitnessInputs.first_call)
                                      (snd WitnessInputs.first_call)
                                      Samples.one_micro "micro"))) !! "micro"
       = Some meta'
    /\ aligned index' meta'.
Proof.
  apply (index_segments_keeps_aligned
           nat Samples.no_entities Samples.dumps_empty Samples.embed_one
           (fst WitnessInputs.first_call) (snd WitnessInputs.first_call)
           Samples.one_micro "micro" [1%nat]).
  - vm_compute. reflexivity.
  - split; [vm_compute; reflexivity|].
    intros i seg E. vm_compute in E.
    destruct i as [|[|i]]; [|discriminate E | discriminate E].
    injection E as <-. reflexivity.
Defined.

Lemma index_segments_unknown_scale_witness :
  index1 (new nat) MoreSamples.clean_disk Samples.one_micro "nano"
  = (new nat, MoreSamples.clean_disk, Py.Raise Py.KeyError).
Proof.
  apply (index_segments_unknown_scale
           nat Samples.no_entities Samples.dumps_empty Samples.embed_one
           (new nat) MoreSamples.clean_disk Samples.one_micro "nano");
    try discriminate.
  reflexivity.
Defined.

Lemma index_segments_persists_witness :
  exists index,
    indices nat (fst WitnessInputs.first_call) !! "micro" = Some index
    /\ load_or_create_index nat (snd WitnessInputs.first_call) "micro" = Py.Ok index.
Proof.
  apply (proj1 (index_segments_persists
                  nat Samples.no_entities Samples.dumps_empty Samples.embed_one
                  (new nat) (fst WitnessInputs.first_call)
                  MoreSamples.clean_disk (snd WitnessInputs.first_call)
                  Samples.one_micro "micro"
                  ltac:(vm_compute; reflexivity))).
Defined.

End ExtraRetrieverExamples.

Section ExtraClusterExamples.

Import MotifClusterer ObserveClusters.

Lemma cluster_embeddings_reports_witness :
  exists motifs,
    cluster_embeddings nat (fun _ => WitnessInputs.seven_labels) (fun ts => ts)
                       [] WitnessInputs.seven_texts = Some motifs
    /\ List.NoDup (List.map fst motifs).
Proof.
  assert (H : exists motifs,
             cluster_embeddings nat (fun _ => WitnessInputs.seven_labels)
                                (fun ts => ts) [] WitnessInputs.seven_texts
             = Some motifs).
  { vm_compute. eexists. reflexivity. }
  destruct H as [motifs H]. exists motifs. split; [exact H|].
  exact (proj1 (cluster_embeddings_reports
                  nat (fun _ => WitnessInputs.seven_labels) (fun ts => ts)
                  [] WitnessInputs.seven_texts motifs H)).
Defined.

Lemma generate_motif_label_by_presence_witness :
  generate_motif_label ["a"; "ice"; "ice"] = generate_motif_label ["ice"; "a"].
Proof.
  apply (generate_motif_label_by_presence ["ice"; "a"] ["a"; "ice"; "ice"]).
  - intros k _. cbn. tauto.
  - vm_compute. reflexivity.
Defined.

End ExtraClusterExamples.
